(** * SmartPlate frontend: session context, sign-in page and map widget

    A shallow embedding of the three source units of the repository

    - the auth context ([AuthProvider]: [setAuth], [fetchUser], [logout]),
    - the sign-in / sign-up page ([Auth]: [handleSignIn], [handleSignUp]),
    - the map widget ([MapComponent]: its three effects and the cleanup),

    followed by the properties of the specification that hold on them and the
    inputs at which the others fail.

    JavaScript values are an inductive type; the React state cells, the
    browser's [localStorage], the requests awaiting a reply and the calls made
    to the outside (axios, toast, navigate) are fields of one [world] record
    that the handlers thread through a state-and-exception monad.  An [async]
    function is cut at its [await]: the part before it issues the request and
    parks a continuation, the part after it runs when the reply arrives, so
    any other handler may run in between, as in the browser's event loop. *)

From stdpp Require Import gmap strings list pretty.

(* ===================================================================== *)
(** * JavaScript values *)
(* ===================================================================== *)

Module Js.

(** Values the program handles: what a JSON body can hold, plus
    [undefined].  Numbers are restricted to integers (no fractions, no NaN);
    the program never computes with them. *)
#[warnings="-register-all"]
Inductive value :=
| VUndefined
| VNull
| VBool (b : bool)
| VNum (n : Z)
| VStr (s : string)
| VArr (items : list value)
| VObj (fields : gmap string value).

(** [!!v]: everything is truthy but [undefined], [null], [false], [0]
    and the empty string. *)
Definition truthy (v : value) : bool :=
  match v with
  | VUndefined | VNull => false
  | VBool b => b
  | VNum n => negb (n =? 0)%Z
  | VStr s => negb (String.eqb s "")
  | VArr _ | VObj _ => true
  end.

(** [v == null], the test of optional chaining. *)
Definition nullish (v : value) : bool :=
  match v with
  | VUndefined | VNull => true
  | _ => false
  end.

(** [String(v)], as applied by template literals and by
    [localStorage.setItem]. *)
Fixpoint to_string (v : value) : string :=
  match v with
  | VUndefined => "undefined"
  | VNull => "null"
  | VBool b => if b then "true" else "false"
  | VNum n => pretty n
  | VStr s => s
  | VArr items =>
      (fix join (l : list value) : string :=
         match l with
         | [] => ""
         | x :: rest =>
             let sx := match x with
                       | VUndefined | VNull => ""
                       | _ => to_string x
                       end in
             match rest with
             | [] => sx
             | _ => sx +:+ "," +:+ join rest
             end
         end) items
  | VObj _ => "[object Object]"
  end.

(** [v.k].  [None] stands for the TypeError raised when [v] is [null] or
    [undefined].  Objects answer with their own fields, strings and arrays
    with their [length]; inherited methods are not modelled (the program
    reads only [data], [token], [user], [role], [response] and [detail]). *)
Definition get (v : value) (k : string) : option value :=
  match v with
  | VUndefined | VNull => None
  | VObj fields => Some (default VUndefined (fields !! k))
  | VStr s => Some (if String.eqb k "length"
                    then VNum (Z.of_nat (String.length s)) else VUndefined)
  | VArr items => Some (if String.eqb k "length"
                        then VNum (Z.of_nat (length items)) else VUndefined)
  | VBool _ | VNum _ => Some VUndefined
  end.

(** [Object.is a b], by which React compares effect dependencies.  Two
    objects (or arrays) are the same value only when they are the same
    reference; every object that reaches the state is a freshly parsed
    response body, so two of them are never the same. *)
Definition object_is (a b : value) : bool :=
  match a, b with
  | VUndefined, VUndefined | VNull, VNull => true
  | VBool x, VBool y => Bool.eqb x y
  | VNum x, VNum y => (x =? y)%Z
  | VStr x, VStr y => String.eqb x y
  | _, _ => false
  end.

(** The error object of a failed property read. *)
Definition TypeError : value :=
  VObj {[ "name" := VStr "TypeError" ]}.

End Js.

Import Js.

(* ===================================================================== *)
(** * The world: state cells, storage, pending requests, outside calls *)
(* ===================================================================== *)

(** An [async] function parked at its [await].  [FetchUserK t] is
    [fetchUser] awaiting [GET /auth/me]; [t] is the token of the render that
    started it (the continuation itself does not read it). *)
Inductive continuation :=
| FetchUserK (token : value)
| SignInK
| SignUpK.

(** Calls to the outside that leave a visible trace. *)
Inductive call :=
| AxiosGet (url : string) (headers : list (string * string))
| AxiosPost (url : string) (body : value)
| ToastError (message : value)
| ToastSuccess (message : value)
| Navigate (to : string)
| PreventDefault.

(** The settled promise of an axios call: [Fulfilled d] carries the
    response body [res.data], [Rejected e] the error thrown at the
    [await]. *)
Inductive reply :=
| Fulfilled (data : value)
| Rejected (err : value).

Record world := World {
  (* AuthProvider: const [user, setUser] = useState(null) ... *)
  user : value;
  token : value;
  loading : bool;
  (* the dependency [token] differs from the one of the last render *)
  token_changed : bool;
  (* Auth page: const [loading, setLoading] = useState(false) *)
  page_loading : bool;
  localStorage : gmap string string;
  inflight : list continuation;
  calls : list call;
}.

Definition with_user (v : value) (w : world) : world :=
  World v (token w) (loading w) (token_changed w) (page_loading w)
        (localStorage w) (inflight w) (calls w).
Definition with_token (v : value) (w : world) : world :=
  World (user w) v (loading w) (token_changed w) (page_loading w)
        (localStorage w) (inflight w) (calls w).
Definition with_loading (b : bool) (w : world) : world :=
  World (user w) (token w) b (token_changed w) (page_loading w)
        (localStorage w) (inflight w) (calls w).
Definition with_token_changed (b : bool) (w : world) : world :=
  World (user w) (token w) (loading w) b (page_loading w)
        (localStorage w) (inflight w) (calls w).
Definition with_page_loading (b : bool) (w : world) : world :=
  World (user w) (token w) (loading w) (token_changed w) b
        (localStorage w) (inflight w) (calls w).
Definition with_localStorage (m : gmap string string) (w : world) : world :=
  World (user w) (token w) (loading w) (token_changed w) (page_loading w)
        m (inflight w) (calls w).
Definition with_inflight (l : list continuation) (w : world) : world :=
  World (user w) (token w) (loading w) (token_changed w) (page_loading w)
        (localStorage w) l (calls w).
Definition with_calls (l : list call) (w : world) : world :=
  World (user w) (token w) (loading w) (token_changed w) (page_loading w)
        (localStorage w) (inflight w) l.

(** ** The handler monad: state plus exceptions *)

Inductive completion (A : Type) :=
| Normal (a : A)
| Throw (exn : value).
Arguments Normal {A} a.
Arguments Throw {A} exn.

Definition M (A : Type) : Type := world → completion A * world.

Definition ret {A} (a : A) : M A := λ w, (Normal a, w).
Definition throw {A} (e : value) : M A := λ w, (Throw e, w).
Definition bind {A B} (m : M A) (f : A → M B) : M B :=
  λ w, match m w with
       | (Normal a, w') => f a w'
       | (Throw e, w') => (Throw e, w')
       end.

Notation "x <- m ;; k" := (bind m (λ x, k))
  (at level 100, m at next level, right associativity, only parsing).
Notation "'run' m ;; k" := (bind m (λ _, k))
  (at level 100, m at next level, right associativity, only parsing).

(** [try { body } catch (err) { handler err }] *)
Definition try_catch {A} (body : M A) (handler : value → M A) : M A :=
  λ w, match body w with
       | (Normal a, w') => (Normal a, w')
       | (Throw e, w') => handler e w'
       end.

(** [try { body } finally { fin }]: [fin] always runs; when it completes
    normally the completion of [body] stands. *)
Definition try_finally {A} (body : M A) (fin : M unit) : M A :=
  λ w, match body w with
       | (c, w') => match fin w' with
                    | (Normal _, w'') => (c, w'')
                    | (Throw e, w'') => (Throw e, w'')
                    end
       end.

Definition modify (f : world → world) : M unit := λ w, (Normal tt, f w).
Definition gets {A} (f : world → A) : M A := λ w, (Normal (f w), w).

(** The world a handler leaves behind (an exception that escapes an
    [async] handler rejects a promise nobody awaits). *)
Definition exec {A} (m : M A) (w : world) : world := snd (m w).

(** [await p] on a settled promise. *)
Definition await (r : reply) : M value :=
  match r with
  | Fulfilled d => ret d
  | Rejected e => throw e
  end.

(** [v.k] and [v?.k] as computations. *)
Definition prop (v : value) (k : string) : M value :=
  match Js.get v k with
  | Some x => ret x
  | None => throw TypeError
  end.
Definition opt_prop (v : value) (k : string) : M value :=
  if nullish v then ret VUndefined else prop v k.

(** [a || b] *)
Definition or_else (a b : value) : value := if truthy a then a else b.

(** ** Outside calls *)

Definition log (c : call) : M unit := modify (λ w, with_calls (calls w ++ [c]) w).
Definition park (k : continuation) : M unit :=
  modify (λ w, with_inflight (inflight w ++ [k]) w).

Definition axios_get (url : string) (headers : list (string * string))
    (k : continuation) : M unit :=
  run log (AxiosGet url headers) ;; park k.
Definition axios_post (url : string) (body : value) (k : continuation) : M unit :=
  run log (AxiosPost url body) ;; park k.

Definition toast_error (message : value) : M unit := log (ToastError message).
Definition toast_success (message : value) : M unit := log (ToastSuccess message).
Definition navigate (to : string) : M unit := log (Navigate to).
Definition preventDefault : M unit := log PreventDefault.

(** ** localStorage *)

Definition getItem (m : gmap string string) (key : string) : value :=
  match m !! key with
  | Some s => VStr s
  | None => VNull
  end.
Definition localStorage_setItem (key : string) (v : value) : M unit :=
  modify (λ w, with_localStorage (<[key := to_string v]> (localStorage w)) w).
Definition localStorage_removeItem (key : string) : M unit :=
  modify (λ w, with_localStorage (delete key (localStorage w)) w).

(* ===================================================================== *)
(** * The application: auth context and sign-in page *)
(* ===================================================================== *)

Section App.

(** [process.env.REACT_APP_BACKEND_URL], fixed when the bundle is built
    (a string, or [undefined] when the variable is not set). *)
Variable REACT_APP_BACKEND_URL : value.

(** [const API = `${process.env.REACT_APP_BACKEND_URL}/api`] *)
Definition API : string := to_string REACT_APP_BACKEND_URL +:+ "/api".

(** ** Auth context (AuthProvider) *)

Definition smartplate_token : string := "smartplate_token".

(** The setters of the three [useState] cells.  [setToken] notes whether
    the new value differs from the current one, which is what makes React
    run the effect that depends on [token] after the next render.  (No
    handler sets the token twice in one event.) *)
Definition setUser (v : value) : M unit := modify (with_user v).
Definition setToken (v : value) : M unit :=
  modify (λ w, with_token_changed
                 (token_changed w || negb (object_is (token w) v))
                 (with_token v w)).
Definition setLoading (b : bool) : M unit := modify (with_loading b).

(** [setAuth(newToken, newUser)] *)
Definition setAuth (newToken newUser : value) : M unit :=
  run localStorage_setItem smartplate_token newToken ;;
  run setToken newToken ;;
  setUser newUser.

(** [fetchUser], up to its [await]: nothing to fetch without a token,
    otherwise the request leaves and the function parks. *)
Definition fetchUser : M unit :=
  tok <- gets token ;;
  if negb (truthy tok) then
    setLoading false
  else
    axios_get (API +:+ "/auth/me")
              [("Authorization", "Bearer " +:+ to_string tok)]
              (FetchUserK tok).

(** [fetchUser], from its [await] on: the [try] / [catch] / [finally]
    around the reply. *)
Definition fetchUser_resume (r : reply) : M unit :=
  try_finally
    (try_catch
       (data <- await r ;;
        setUser data)
       (λ _,
         run localStorage_removeItem smartplate_token ;;
         run setToken VNull ;;
         setUser VNull))
    (setLoading false).

(** [logout()] *)
Definition logout : M unit :=
  run localStorage_removeItem smartplate_token ;;
  run setToken VNull ;;
  setUser VNull.

(** After a handler React renders again and runs
    [useEffect(() => { fetchUser() }, [token])] when the token changed. *)
Definition render (w : world) : world :=
  if token_changed w
  then exec fetchUser (with_token_changed false w)
  else w.

(** Mounting the provider over a given [localStorage]: the initial values
    of the state cells, then the effect of the first render.  (On later
    renders React evaluates [localStorage.getItem('smartplate_token')]
    again and discards the result.) *)
Definition AuthProvider (storage : gmap string string) : world :=
  exec fetchUser
    {| user := VNull;
       token := getItem storage smartplate_token;
       loading := true;
       token_changed := false;
       page_loading := false;
       localStorage := storage;
       inflight := [];
       calls := [] |}.

(** ** Sign-in / sign-up page (Auth) *)

(** The two form states, [signin] and [signup]; the fields of the first
    carry its name, since both have an [email] and a [password]. *)
Record signin_state := { signin_email : string; signin_password : string }.

Record signup_state := {
  name : string;
  email : string;
  password : string;
  confirm : string;
  role : string;
}.

Definition page_setLoading (b : bool) : M unit := modify (with_page_loading b).

(** The object [signin] posted as it is. *)
Definition signin_body (signin : signin_state) : value :=
  VObj {[ "email" := VStr (signin_email signin);
          "password" := VStr (signin_password signin) ]}.

(** The object literal built for the registration request. *)
Definition signup_body (signup : signup_state) : value :=
  VObj {[ "name" := VStr (name signup);
          "email" := VStr (email signup);
          "password" := VStr (password signup);
          "role" := VStr (role signup) ]}.

(** [handleSignIn], up to its [await]. *)
Definition handleSignIn (signin : signin_state) : M unit :=
  run preventDefault ;;
  if negb (truthy (VStr (signin_email signin)))
     || negb (truthy (VStr (signin_password signin)))
  then
    toast_error (VStr "Fill all fields")
  else
    run page_setLoading true ;;
    axios_post (API +:+ "/auth/login") (signin_body signin) SignInK.

(** [err.response?.data?.detail || fallback] *)
Definition error_message (err : value) (fallback : string) : M value :=
  response <- prop err "response" ;;
  data <- opt_prop response "data" ;;
  detail <- opt_prop data "detail" ;;
  ret (or_else detail (VStr fallback)).

(** [handleSignIn], from its [await] on. *)
Definition handleSignIn_resume (r : reply) : M unit :=
  try_finally
    (try_catch
       (data <- await r ;;
        newToken <- prop data "token" ;;
        newUser <- prop data "user" ;;
        run setAuth newToken newUser ;;
        run toast_success (VStr "Welcome back!") ;;
        u <- prop data "user" ;;
        userRole <- prop u "role" ;;
        navigate ("/" +:+ to_string userRole +:+ "-dashboard"))
       (λ err,
         message <- error_message err "Login failed" ;;
         toast_error message))
    (page_setLoading false).

(** [handleSignUp], up to its [await]. *)
Definition handleSignUp (signup : signup_state) : M unit :=
  run preventDefault ;;
  if negb (truthy (VStr (name signup)))
     || negb (truthy (VStr (email signup)))
     || negb (truthy (VStr (password signup)))
  then
    toast_error (VStr "Fill all fields")
  else if negb (String.eqb (password signup) (confirm signup)) then
    toast_error (VStr "Passwords do not match")
  else
    run page_setLoading true ;;
    axios_post (API +:+ "/auth/register") (signup_body signup) SignUpK.

(** [handleSignUp], from its [await] on. *)
Definition handleSignUp_resume (r : reply) : M unit :=
  try_finally
    (try_catch
       (data <- await r ;;
        newToken <- prop data "token" ;;
        newUser <- prop data "user" ;;
        run setAuth newToken newUser ;;
        run toast_success (VStr "Account created!") ;;
        navigate "/select-role")
       (λ err,
         message <- error_message err "Registration failed" ;;
         toast_error message))
    (page_setLoading false).

(** ** The event loop *)

(** What can happen to the mounted application: a consumer of the context
    calls [setAuth] or [logout], a form is submitted with the field values
    of the current render, or the [i]-th pending request is answered. *)
Inductive event :=
| CallSetAuth (newToken newUser : value)
| CallLogout
| SubmitSignIn (signin : signin_state)
| SubmitSignUp (signup : signup_state)
| Reply (i : nat) (r : reply).

Definition resume (k : continuation) (r : reply) : M unit :=
  match k with
  | FetchUserK _ => fetchUser_resume r
  | SignInK => handleSignIn_resume r
  | SignUpK => handleSignUp_resume r
  end.

(** The handler of an event ([None]: there is no [i]-th pending request). *)
Definition handler (e : event) (w : world) : option (M unit) :=
  match e with
  | CallSetAuth newToken newUser => Some (setAuth newToken newUser)
  | CallLogout => Some logout
  | SubmitSignIn signin => Some (handleSignIn signin)
  | SubmitSignUp signup => Some (handleSignUp signup)
  | Reply i r =>
      k ← inflight w !! i;
      Some (run modify (λ w, with_inflight (delete i (inflight w)) w) ;;
            resume k r)
  end.

(** One turn of the event loop: the handler runs on the rendered world,
    then React renders and runs the effect if its dependency changed. *)
Definition step (w : world) (e : event) : option world :=
  h ← handler e w;
  Some (render (exec h (with_token_changed false w))).

Fixpoint steps (w : world) (es : list event) : option world :=
  match es with
  | [] => Some w
  | e :: es' => w' ← step w e; steps w' es'
  end.

(** ** Runs of the auth context *)

(** The worlds reached from a fresh mount over [storage] by events that a
    policy [ok] admits. *)
Inductive reachable (ok : world → event → Prop)
    (storage : gmap string string) : world → Prop :=
| reachable_mount : reachable ok storage (AuthProvider storage)
| reachable_step w e w' :
    reachable ok storage w → ok w e → step w e = Some w' →
    reachable ok storage w'.

(** A list of events each of which the policy admits when its turn
    comes. *)
Fixpoint admits (ok : world → event → Prop) (w : world) (es : list event)
    : Prop :=
  match es with
  | [] => True
  | e :: es' =>
      ok w e ∧ match step w e with
               | Some w' => admits ok w' es'
               | None => False
               end
  end.

(** The operations of the auth context: [setAuth], [logout] and the
    completion, either way, of a pending profile fetch. *)
Definition context_op (w : world) (e : event) : Prop :=
  match e with
  | CallSetAuth _ _ | CallLogout => True
  | Reply i _ => ∃ tok, inflight w !! i = Some (FetchUserK tok)
  | SubmitSignIn _ | SubmitSignUp _ => False
  end.

(** The same, with [setAuth] given a string as token. *)
Definition string_token_op (w : world) (e : event) : Prop :=
  match e with
  | CallSetAuth (VStr _) _ => True
  | CallSetAuth _ _ => False
  | _ => context_op w e
  end.

(** The same, with [setAuth] given a token other than [null], and with a
    profile fetch succeeding only while there is a token (the session was
    not cleared while the request was on its way). *)
Definition live_session_op (w : world) (e : event) : Prop :=
  match e with
  | CallSetAuth newToken _ => newToken ≠ VNull
  | Reply i (Fulfilled _) =>
      (∃ tok, inflight w !! i = Some (FetchUserK tok)) ∧ token w ≠ VNull
  | _ => context_op w e
  end.

(** ** Reading an error *)

(** An own field of an object, if there is one. *)
Definition field (v : value) (k : string) : option value :=
  match v with
  | VObj fields => fields !! k
  | _ => None
  end.

(** The [detail] field of the body of the response an error carries,
    when the error has a response, the response a body and the body that
    field. *)
Definition server_detail (err : value) : option value :=
  response ← field err "response";
  data ← field response "data";
  field data "detail".

(** Every pending profile fetch was started for a truthy token. *)
Definition fetches_have_token (w : world) : Prop :=
  Forall (λ k, match k with
               | FetchUserK tok => truthy tok = true
               | _ => True
               end) (inflight w).

(** The invariant of the session: no token, no user. *)
Definition token_absent_user_absent (w : world) : Prop :=
  token w = VNull → user w = VNull.

(** The storage key mirrors the token in memory: [getItem] reads back
    exactly the token, so the key is absent exactly when the token is
    [null]. *)
Definition storage_mirrors_token (w : world) : Prop :=
  getItem (localStorage w) smartplate_token = token w.

(** Two worlds that differ at most in what the storage holds. *)
Definition same_but_storage (w1 w2 : world) : Prop :=
  with_localStorage ∅ w1 = with_localStorage ∅ w2.

(** A computation that never reads the storage: on worlds that differ at
    most there it completes alike and leaves worlds that differ at most
    there. *)
Definition storage_blind {A} (m : M A) : Prop :=
  ∀ w1 w2, same_but_storage w1 w2 →
    fst (m w1) = fst (m w2) ∧ same_but_storage (snd (m w1)) (snd (m w2)).

(** A computation whose every run relates the world it starts from to the
    world it leaves by [R]. *)
Definition keeps {A} (R : relation world) (m : M A) : Prop :=
  ∀ w, R w (snd (m w)).

(** The stored entries under all keys but the token's are the same. *)
Definition other_keys_kept (w w' : world) : Prop :=
  ∀ k, k ≠ smartplate_token → localStorage w' !! k = localStorage w !! k.

(** The text of an error toast, as the specification words it: the
    detail when there is one, else the fallback. *)
Definition detail_when_present (fallback : string) (detail : option value)
    : value :=
  match detail with
  | Some d => d
  | None => VStr fallback
  end.

(** The same, with a detail counting only when it is truthy. *)
Definition detail_when_truthy (fallback : string) (detail : option value)
    : value :=
  match detail with
  | Some d => if truthy d then d else VStr fallback
  | None => VStr fallback
  end.

Definition is_navigate (c : call) : bool :=
  match c with Navigate _ => true | _ => false end.

(** ** The rest of the context value and of the page *)

(** [isAuthenticated: !!user], as the provider hands it to its consumers. *)
Definition isAuthenticated (w : world) : bool := truthy (user w).

(** The form states the page starts with. *)
Definition initial_signin : signin_state :=
  {| signin_email := ""; signin_password := "" |}.

Definition initial_signup : signup_state :=
  {| name := ""; email := ""; password := ""; confirm := "";
     role := "donor" |}.

(** The [onChange] handlers of the sign-up form, and [onValueChange] of
    its role selector: [setSignup({ ...signup, field: v })]. *)
Inductive signup_edit :=
| EditName (v : string)
| EditEmail (v : string)
| EditPassword (v : string)
| EditConfirm (v : string)
| EditRole (v : string).

Definition setSignup (signup : signup_state) (e : signup_edit) : signup_state :=
  match e with
  | EditName v =>
      {| name := v; email := email signup; password := password signup;
         confirm := confirm signup; role := role signup |}
  | EditEmail v =>
      {| name := name signup; email := v; password := password signup;
         confirm := confirm signup; role := role signup |}
  | EditPassword v =>
      {| name := name signup; email := email signup; password := v;
         confirm := confirm signup; role := role signup |}
  | EditConfirm v =>
      {| name := name signup; email := email signup;
         password := password signup; confirm := v; role := role signup |}
  | EditRole v =>
      {| name := name signup; email := email signup;
         password := password signup; confirm := confirm signup; role := v |}
  end.

(** The values of the [SelectItem]s of the role selector. *)
Definition offered_roles : list string := ["donor"; "ngo"; "volunteer"].

(** An edit the form can produce: a role edit picks an offered item. *)
Definition form_edit (e : signup_edit) : Prop :=
  match e with
  | EditRole v => v ∈ offered_roles
  | _ => True
  end.

(** ** Policies and invariants of whole runs *)

(** Every event. *)
Definition any_op (w : world) (e : event) : Prop := True.

(** Every event, with a form submitted only while the page is not loading:
    the submit buttons are [disabled={loading}]. *)
Definition button_enabled_op (w : world) (e : event) : Prop :=
  match e with
  | SubmitSignIn _ | SubmitSignUp _ => page_loading w = false
  | _ => True
  end.

(** A relation between the world before and the world after that says the
    second has property [P] when the first has. *)
Definition upholds (P : world → Prop) : relation world :=
  λ w w', P w → P w'.

(** A relation that says a component of the world is left as it was. *)
Definition unchanged {A} (f : world → A) : relation world :=
  λ w w', f w' = f w.

Definition is_page_request (k : continuation) : bool :=
  match k with
  | SignInK | SignUpK => true
  | FetchUserK _ => false
  end.

(** The pending login and registration requests. *)
Definition page_requests (l : list continuation) : list continuation :=
  filter (λ k, is_page_request k = true) l.

(** Some profile fetch is pending. *)
Definition profile_pending (w : world) : Prop :=
  ∃ tok, FetchUserK tok ∈ inflight w.

(** While the context is loading, a profile fetch is pending. *)
Definition loading_is_fetching (w : world) : Prop :=
  loading w = true → profile_pending w.

(** The page is loading exactly while one login or registration request,
    and no more, is pending. *)
Definition one_submission (w : world) : Prop :=
  length (page_requests (inflight w)) = if page_loading w then 1 else 0.


(** The profile request that follows [setAuth]: one, when the token is a
    new one and truthy. *)
Definition profile_request_for (current newToken : value) : list call :=
  if object_is current newToken then []
  else if truthy newToken then
    [AxiosGet (API +:+ "/auth/me")
       [("Authorization", "Bearer " +:+ to_string newToken)]]
  else [].

Definition profile_fetch_for (current newToken : value) : list continuation :=
  if object_is current newToken then []
  else if truthy newToken then [FetchUserK newToken]
  else [].

(** A request rejected without a reason: [catch (err)] binds [null] or
    [undefined], and reading [err.response] throws. *)
Definition rejected_without_reason (r : reply) : bool :=
  match r with
  | Rejected err => nullish err
  | Fulfilled _ => false
  end.

(** How the handler of an event ends: normally, or by an exception that
    escapes it. *)
Definition completion_of (e : event) (w : world)
    : option (completion unit) :=
  h ← handler e w;
  Some (fst (h (with_token_changed false w))).

End App.

(* ===================================================================== *)
(** * The map widget (MapComponent) *)
(* ===================================================================== *)

Module MapComponent.

(** JavaScript numbers (coordinates, zoom) are IEEE doubles; the component
    only hands them to Leaflet, so their type is left open, with
    JavaScript's two tests on it.  [isNaN] is what Leaflet asks of a
    coordinate: it is true of [NaN] and of what coerces to it, such as
    [undefined].  [isFinite] is false of these and of the infinities. *)
Class Coordinate (number : Type) := {
  isNaN : number → bool;
  isFinite : number → bool;
}.

Section Leaflet.
Context `{Coordinate number}.

(** The double quote, for the markup the component builds. *)
Definition dq : string := String (Ascii.ascii_of_nat 34) EmptyString.

Record latlng := LatLng { lat : number; lng : number }.

(** An entry of the [markers] prop:
    [{position: {lat, lng}, type, title?}], where [position] may be
    missing. *)
Record markerData := {
  position : option latlng;
  type : value;
  title : option string;
}.

Record divIcon := {
  className : string;
  html : string;
  iconSize : Z * Z;
  iconAnchor : Z * Z;
  popupAnchor : Z * Z;
}.

Definition createCustomIcon (color : string) : divIcon :=
  {| className := "custom-marker";
     html := "<div style=" +:+ dq +:+ "
      background-color: " +:+ color +:+ ";
      width: 30px;
      height: 30px;
      border-radius: 50% 50% 50% 0;
      transform: rotate(-45deg);
      border: 3px solid white;
      box-shadow: 0 2px 6px rgba(0,0,0,0.3);
    " +:+ dq +:+ "></div>";
     iconSize := (30, 30)%Z;
     iconAnchor := (15, 30)%Z;
     popupAnchor := (0, -30)%Z |}.

Definition ngoIcon : divIcon := createCustomIcon "#1A4D2E".
Definition donorIcon : divIcon := createCustomIcon "#E07A5F".
Definition defaultIcon : divIcon := createCustomIcon "#4A4A4A".

(** A Leaflet marker object.  Objects have identity: [marker_id] is the
    reference by which [markersRef] and the map both reach it. *)
Record marker := {
  marker_id : nat;
  marker_latlng : number * number;
  icon : divIcon;
  popup : option string;
}.

Record leaflet_map := {
  view : (number * number) * number;
  tileLayers : list (string * string);
  click : bool;
  layers : list marker;
}.

(** Calls on Leaflet markers, in the order they are made. *)
Inductive leaflet_call :=
| AddTo (m : nat)
| BindPopup (m : nat) (content : string)
| Remove (m : nat).

(** The refs of the component, the supply of fresh marker objects and the
    record of marker calls. *)
Record component := {
  mapRef : bool;
  mapInstanceRef : option leaflet_map;
  markersRef : list nat;
  next_marker : nat;
  leaflet_calls : list leaflet_call;
}.

(** The props the effects read ([style] only dresses the container). *)
Record props := {
  center : latlng;
  zoom : number;
  markers : list markerData;
  onClick : bool;
}.

Definition with_layers (l : list marker) (m : leaflet_map) : leaflet_map :=
  {| view := view m; tileLayers := tileLayers m; click := click m;
     layers := l |}.

Definition with_view (v : (number * number) * number) (m : leaflet_map)
    : leaflet_map :=
  {| view := v; tileLayers := tileLayers m; click := click m;
     layers := layers m |}.

(** How an effect ends: normally, or by an exception that Leaflet throws
    and nothing in the component catches; either way with the refs as the
    effect left them. *)
Inductive outcome :=
| Done (c : component)
| Thrown (c : component).

Definition state_of (o : outcome) : component :=
  match o with Done c | Thrown c => c end.

(** The effects of one render run in order; an exception ends the run. *)
Definition and_then (o : outcome) (f : component → outcome) : outcome :=
  match o with
  | Done c => f c
  | Thrown c => Thrown c
  end.

(** Leaflet's [toLatLng([lat, lng])], which [L.marker] and [setView] apply
    to their argument: [new LatLng(lat, lng)] throws
    [Invalid LatLng object] when [isNaN(lat) || isNaN(lng)] ([None]). *)
Definition toLatLng (lat lng : number) : option (number * number) :=
  if isNaN lat || isNaN lng then None else Some (lat, lng).

(** The first effect: create the map once the container is there.  When
    [setView] throws, the assignment to [mapInstanceRef.current] and the
    statements after it are not reached.  (The container is fresh at a
    mount and after the cleanup, so [L.map] itself does not throw.  What
    Leaflet does with a centre or a zoom that passes [toLatLng] but is not
    a finite number is not modelled: the properties below that run
    [setView] are about a [finite_view].) *)
Definition init_map (p : props) (c : component) : outcome :=
  match mapInstanceRef c with
  | None =>
      if mapRef c then
        match toLatLng (lat (center p)) (lng (center p)) with
        | Some ll =>
            Done
              {| mapRef := mapRef c;
                 mapInstanceRef := Some
                   {| view := (ll, zoom p);
                      tileLayers :=
                        [("https://{s}.tile.openstreetmap.org/{z}/{x}/{y}.png",
                          "&copy; <a href=" +:+ dq
                            +:+ "https://www.openstreetmap.org/copyright"
                            +:+ dq +:+ ">OpenStreetMap</a> contributors")];
                      click := onClick p;
                      layers := [] |};
                 markersRef := markersRef c;
                 next_marker := next_marker c;
                 leaflet_calls := leaflet_calls c |}
        | None => Thrown c
        end
      else Done c
  | Some _ => Done c
  end.

(** The cleanup of the first effect, run when the component unmounts:
    the map is removed, with everything on it. *)
Definition cleanup (c : component) : component :=
  match mapInstanceRef c with
  | Some _ =>
      {| mapRef := mapRef c;
         mapInstanceRef := None;
         markersRef := markersRef c;
         next_marker := next_marker c;
         leaflet_calls := leaflet_calls c |}
  | None => c
  end.

(** The second effect: [setView] when the centre or the zoom changes (the
    guard [&& center] never fails for a [center] of the record type). *)
Definition update_view (p : props) (c : component) : outcome :=
  match mapInstanceRef c with
  | Some m =>
      match toLatLng (lat (center p)) (lng (center p)) with
      | Some ll =>
          Done
            {| mapRef := mapRef c;
               mapInstanceRef := Some (with_view (ll, zoom p) m);
               markersRef := markersRef c;
               next_marker := next_marker c;
               leaflet_calls := leaflet_calls c |}
      | None => Thrown c
      end
  | None => Done c
  end.

(** [marker.remove()]: the marker leaves the map it is on. *)
Definition marker_remove (c : component) (id : nat) : component :=
  {| mapRef := mapRef c;
     mapInstanceRef :=
       (λ m, with_layers
               (filter (λ x, marker_id x ≠ id) (layers m)) m)
         <$> mapInstanceRef c;
     markersRef := markersRef c;
     next_marker := next_marker c;
     leaflet_calls := leaflet_calls c ++ [Remove id] |}.

(** [markersRef.current.forEach(marker => marker.remove());
     markersRef.current = [];] *)
Definition clear_markers (c : component) : component :=
  let c' := foldl marker_remove c (markersRef c) in
  {| mapRef := mapRef c';
     mapInstanceRef := mapInstanceRef c';
     markersRef := [];
     next_marker := next_marker c';
     leaflet_calls := leaflet_calls c' |}.

(** The [switch] on [markerData.type]. *)
Definition icon_for (ty : value) : divIcon :=
  match ty with
  | VStr "ngo" => ngoIcon
  | VStr "donor" => donorIcon
  | _ => defaultIcon
  end.

(** [marker.bindPopup(content)] mutates the marker object, which the map
    holds as well. *)
Definition bind_popup (id : nat) (content : string) (l : list marker)
    : list marker :=
  (λ x, if decide (marker_id x = id)
        then {| marker_id := marker_id x;
                marker_latlng := marker_latlng x;
                icon := icon x;
                popup := Some content |}
        else x) <$> l.

(** The popup bound for a title, if any: [if (markerData.title)]. *)
Definition popup_for (t : option string) : option string :=
  match t with
  | Some s => if truthy (VStr s)
              then Some ("<strong>" +:+ s +:+ "</strong>") else None
  | None => None
  end.

(** The body of [markers.forEach(markerData => ...)].  [L.marker] throws
    on a coordinate that is not a number, before anything is added. *)
Definition add_marker (c : component) (markerData : markerData)
    : outcome :=
  match position markerData, mapInstanceRef c with
  | Some pos, Some m =>
      match toLatLng (lat pos) (lng pos) with
      | Some ll =>
          let id := next_marker c in
          let new := {| marker_id := id;
                        marker_latlng := ll;
                        icon := icon_for (type markerData);
                        popup := None |} in
          let added := layers m ++ [new] in
          Done
            {| mapRef := mapRef c;
               mapInstanceRef :=
                 Some (with_layers
                         (match popup_for (title markerData) with
                          | Some content => bind_popup id content added
                          | None => added
                          end) m);
               markersRef := markersRef c ++ [id];
               next_marker := S id;
               leaflet_calls :=
                 leaflet_calls c ++ AddTo id ::
                   match popup_for (title markerData) with
                   | Some content => [BindPopup id content]
                   | None => []
                   end |}
      | None => Thrown c
      end
  | _, _ => Done c
  end.

(** [list.forEach(f)]: an exception in [f] ends the loop. *)
Fixpoint forEach {A} (f : component → A → outcome) (c : component)
    (l : list A) : outcome :=
  match l with
  | [] => Done c
  | x :: rest => and_then (f c x) (λ c', forEach f c' rest)
  end.

(** The third effect, run when the [markers] prop changes. *)
Definition update_markers (p : props) (c : component) : outcome :=
  match mapInstanceRef c with
  | None => Done c
  | Some _ => forEach add_marker (clear_markers c) (markers p)
  end.

(** Mounting: React attaches the container, then runs the three effects
    in order. *)
Definition mount (p : props) : outcome :=
  and_then
    (and_then
       (init_map p
          {| mapRef := true;
             mapInstanceRef := None;
             markersRef := [];
             next_marker := 0;
             leaflet_calls := [] |})
       (update_view p))
    (update_markers p).

(** A later render with new props; the flags tell which dependencies
    ([center] or [zoom]; [markers]) are new values for React, which
    compares objects and arrays by reference. *)
Definition rerender (p : props) (view_changed markers_changed : bool)
    (c : component) : outcome :=
  and_then (if view_changed then update_view p c else Done c)
    (λ c1, if markers_changed then update_markers p c1 else Done c1).

(** States of a mounted component: those that a mount and later renders
    reach with every effect run to its end.  (After an effect that throws
    React takes the component down.) *)
Inductive mounted : component → Prop :=
| mounted_mount p c : mount p = Done c → mounted c
| mounted_rerender p vc mc c c' :
    mounted c → rerender p vc mc c = Done c' → mounted c'.

(** Coordinates that Leaflet accepts. *)
Definition valid (ll : latlng) : bool :=
  negb (isNaN (lat ll) || isNaN (lng ll)).

(** A finite number. *)
Definition finite (x : number) : bool := isFinite x && negb (isNaN x).

(** Props whose centre and zoom are finite numbers. *)
Definition finite_view (p : props) : bool :=
  finite (lat (center p)) && finite (lng (center p)) && finite (zoom p).

(** An entry that [L.marker] accepts, or that is skipped. *)
Definition valid_entry (md : markerData) : bool :=
  match position md with
  | Some pos => valid pos
  | None => true
  end.

(** What the map shows: the markers on it, without their identity. *)
Record shown := {
  shown_at : number * number;
  shown_icon : divIcon;
  shown_popup : option string;
}.

Definition show (m : marker) : shown :=
  {| shown_at := marker_latlng m; shown_icon := icon m;
     shown_popup := popup m |}.

Definition rendered (c : component) : list shown :=
  match mapInstanceRef c with
  | Some m => show <$> layers m
  | None => []
  end.

(** What an entry with a position is to be shown as. *)
Definition expected (md : markerData) : option shown :=
  pos ← position md;
  Some {| shown_at := (lat pos, lng pos);
          shown_icon := icon_for (type md);
          shown_popup := popup_for (title md) |}.

(** The refs agree with the map: there is a map, the markers on it are
    those of [markersRef], in the same order, and all were created
    before the next fresh one. *)
Definition consistent (c : component) : Prop :=
  ∃ m, mapInstanceRef c = Some m
       ∧ marker_id <$> layers m = markersRef c
       ∧ Forall (λ x, marker_id x < next_marker c) (layers m).

(** The refs agree with the map and no marker is tracked twice. *)
Definition tracked (c : component) : Prop :=
  consistent c ∧ NoDup (markersRef c).

(** The markers on the map, by reference. *)
Definition on_map (c : component) : list nat :=
  match mapInstanceRef c with
  | Some m => marker_id <$> layers m
  | None => []
  end.

Definition is_remove (x : leaflet_call) : bool :=
  match x with Remove _ => true | _ => false end.

(** What the map is given once, when it is created: its tile layers and
    whether a click handler is registered. *)
Definition fixtures (c : component) : option (list (string * string) * bool) :=
  (λ m, (tileLayers m, click m)) <$> mapInstanceRef c.

(** The OpenStreetMap tile layer: its URL template and its attribution. *)
Definition osm_tiles : string * string :=
  ("https://{s}.tile.openstreetmap.org/{z}/{x}/{y}.png",
   "&copy; <a href=" +:+ dq
     +:+ "https://www.openstreetmap.org/copyright" +:+ dq
     +:+ ">OpenStreetMap</a> contributors").

(** The cleanup, then the three effects once more, as when React's strict
    mode mounts the component a second time over the same refs. *)
Definition remount (p : props) (c : component) : outcome :=
  and_then (and_then (init_map p (cleanup c)) (update_view p))
    (update_markers p).

End Leaflet.
End MapComponent.

(* ===================================================================== *)
(** * Sample data *)
(* ===================================================================== *)

Definition sample_url : value := VStr "https://api.smartplate.test".

Definition sample_profile : value :=
VObj {[ "name" := VStr "Asha"; "role" := VStr "donor" ]}.

(** A storage left behind by an earlier visit. *)
Definition stored_session : gmap string string :=
{[ smartplate_token := "stale-token" ]}.

Definition sample_signin : signin_state :=
{| signin_email := "asha@example.org"; signin_password := "secret" |}.

Definition sample_signup : signup_state :=
{| name := "Asha"; email := "asha@example.org"; password := "secret";
   confirm := "secret"; role := "ngo" |}.

(** The body [{token, user}] of a login or registration response. *)
Definition session_body (t u : value) : value :=
VObj {[ "token" := t; "user" := u ]}.

(** An axios error whose response body is [{detail: d}]. *)
Definition error_with_detail (d : value) : value :=
  VObj {[ "response" := VObj {[ "data" := VObj {[ "detail" := d ]} ]} ]}.

(** The application mounted over an empty storage. *)
Definition signed_out : world := AuthProvider sample_url ∅.

Definition mismatched_signup : signup_state :=
  {| name := "Asha"; email := "asha@example.org"; password := "secret";
     confirm := "secrte"; role := "donor" |}.

(** The page right after a valid sign-in form was submitted: the login
  request is pending. *)
Definition awaiting_login : world :=
  exec (handleSignIn sample_url sample_signin) (AuthProvider sample_url ∅).

(** A coordinate as a parent component may pass it: a number of whole
    degrees, or [NaN]. *)
Inductive degrees :=
| Deg (z : Z)
| NaN.

Global Instance degrees_coordinate : MapComponent.Coordinate degrees :=
  {| MapComponent.isNaN x := match x with NaN => true | Deg _ => false end;
     MapComponent.isFinite x :=
       match x with NaN => false | Deg _ => true end |}.

Definition sample_markers
    : list (MapComponent.markerData (number:=degrees)) :=
  [ {| MapComponent.position :=
         Some (MapComponent.LatLng (Deg 28) (Deg 77));
       MapComponent.type := VStr "ngo";
       MapComponent.title := Some "Food bank" |};
    {| MapComponent.position := None;
       MapComponent.type := VStr "donor";
       MapComponent.title := None |};
    {| MapComponent.position :=
         Some (MapComponent.LatLng (Deg 29) (Deg 78));
       MapComponent.type := VUndefined;
       MapComponent.title := Some "" |} ].

Definition sample_props
    (ms : list (MapComponent.markerData (number:=degrees)))
    : MapComponent.props (number:=degrees) :=
  {| MapComponent.center := MapComponent.LatLng (Deg 28) (Deg 77);
     MapComponent.zoom := Deg 12;
     MapComponent.markers := ms;
     MapComponent.onClick := false |}.

(** The map mounted with the sample markers. *)
Definition sample_map : MapComponent.component (number:=degrees) :=
  MapComponent.state_of (MapComponent.mount (sample_props sample_markers)).

(** Props whose centre has a latitude that is not a number. *)
Definition props_with_nan_centre
    (ms : list (MapComponent.markerData (number:=degrees)))
    : MapComponent.props (number:=degrees) :=
  {| MapComponent.center := MapComponent.LatLng NaN (Deg 77);
     MapComponent.zoom := Deg 12;
     MapComponent.markers := ms;
     MapComponent.onClick := false |}.

(** A list whose entries all have a position; the latitude of the second
    is not a number. *)
Definition markers_with_nan
    : list (MapComponent.markerData (number:=degrees)) :=
  [ {| MapComponent.position :=
         Some (MapComponent.LatLng (Deg 28) (Deg 77));
       MapComponent.type := VStr "ngo";
       MapComponent.title := Some "Food bank" |};
    {| MapComponent.position := Some (MapComponent.LatLng NaN (Deg 77));
       MapComponent.type := VStr "donor";
       MapComponent.title := Some "Bakery" |};
    {| MapComponent.position :=
         Some (MapComponent.LatLng (Deg 29) (Deg 78));
       MapComponent.type := VStr "donor";
       MapComponent.title := None |} ].

(* ===================================================================== *)
(** * Properties of the application *)
(* ===================================================================== *)

Section Properties.

Variable url : value.

(** Unfolding a handler down to the fields of the world it returns. *)
Ltac run_handler :=
  unfold step, handler, resume, render, exec,
    fetchUser_resume, fetchUser, handleSignIn_resume, handleSignUp_resume,
    handleSignIn, handleSignUp, error_message,
    setAuth, logout, setUser, setToken, setLoading, page_setLoading,
    localStorage_setItem, localStorage_removeItem,
    axios_get, axios_post, toast_error, toast_success, navigate,
    preventDefault, log, park, await, prop, opt_prop,
    try_finally, try_catch, bind, ret, throw, modify, gets in *;
  simpl in *.

(** ** Properties of the auth context *)

(** C10.  With a null token the profile-fetch effect issues no request and
    only sets [loading] to false; an application mounted over a storage
    that holds no token is at once signed out and not loading, having
    called nothing. *)
Theorem null_token_fetches_nothing (w : world) (storage : gmap string string) :
  token w = VNull →
  storage !! smartplate_token = None →
  fetchUser url w = (Normal tt, with_loading false w)
  ∧ AuthProvider url storage =
      {| user := VNull; token := VNull; loading := false;
         token_changed := false; page_loading := false;
         localStorage := storage; inflight := []; calls := [] |}.
Proof.
  intros Htok Hst. split.
  - unfold fetchUser, bind, gets. by rewrite Htok.
  - unfold AuthProvider, getItem. rewrite Hst. reflexivity.
Qed.

(** C2.  When a pending profile fetch fails, the token key is removed from
    storage, token and user become null, loading becomes false, and
    nothing is called: no notification, no request. *)
Theorem failed_profile_fetch_clears_session
    (w : world) (i : nat) (tok err : value) :
  inflight w !! i = Some (FetchUserK tok) →
  ∃ w', step url w (Reply i (Rejected err)) = Some w'
        ∧ localStorage w' = delete smartplate_token (localStorage w)
        ∧ localStorage w' !! smartplate_token = None
        ∧ token w' = VNull
        ∧ user w' = VNull
        ∧ loading w' = false
        ∧ calls w' = calls w
        ∧ inflight w' = delete i (inflight w).
Proof.
  intros Hi. destruct w as [u t l tc pl st fl cs]. run_handler.
  rewrite Hi. simpl.
  destruct (object_is t VNull); simpl;
    (eexists; split; [reflexivity|]); simpl;
    repeat split; try reflexivity; apply lookup_delete_eq.
Qed.

Lemma fetches_have_token_mount (storage : gmap string string) :
  fetches_have_token (AuthProvider url storage).
Proof.
  unfold fetches_have_token, AuthProvider. run_handler.
  destruct (truthy (getItem storage smartplate_token)) eqn:E; simpl.
  - by repeat constructor.
  - constructor.
Qed.

Lemma fetches_have_token_step (w w' : world) (e : event) :
  context_op w e → step url w e = Some w' →
  fetches_have_token w → fetches_have_token w'.
Proof.
  unfold fetches_have_token.
  destruct w as [u t l tc pl st fl cs].
  destruct e as [nt nu| | | |i [d|er]]; simpl; try done.
  - intros _ Hs Hf. run_handler. injection Hs as <-.
    destruct (object_is t nt); simpl; [done|].
    destruct (truthy nt) eqn:E; simpl; [|done].
    apply Forall_app. split; [done|]. by repeat constructor.
  - intros _ Hs Hf. run_handler. injection Hs as <-.
    by destruct (object_is t VNull).
  - intros [tok Hi] Hs Hf. run_handler. rewrite Hi in Hs. simpl in Hs.
    injection Hs as <-. simpl. by apply Forall_delete.
  - intros [tok Hi] Hs Hf. run_handler. rewrite Hi in Hs. simpl in Hs.
    injection Hs as <-.
    destruct (object_is t VNull); simpl; by apply Forall_delete.
Qed.

Lemma reachable_fetches_have_token storage w :
  reachable url context_op storage w → fetches_have_token w.
Proof.
  induction 1 as [|w e w' _ IH He Hs].
  - apply fetches_have_token_mount.
  - eapply fetches_have_token_step; eauto.
Qed.

(** A profile fetch is only ever pending for a truthy token. *)
Lemma pending_fetch_has_token storage w (i : nat) (tok : value) :
  reachable url context_op storage w →
  inflight w !! i = Some (FetchUserK tok) →
  truthy tok = true.
Proof.
  intros Hr%reachable_fetches_have_token Hi.
  unfold fetches_have_token in Hr. rewrite Forall_lookup in Hr.
  by apply Hr in Hi.
Qed.

Lemma reachable_steps ok storage (es : list event) (w w' : world) :
  reachable url ok storage w → admits url ok w es →
  steps url w es = Some w' → reachable url ok storage w'.
Proof.
  revert w. induction es as [|e es IH]; intros w Hr Ha Hs; simpl in *.
  - by injection Hs as <-.
  - destruct Ha as [He Ha]. destruct (step url w e) as [w1|] eqn:E; [|done].
    simpl in Hs. eapply IH; [|exact Ha|exact Hs].
    by eapply reachable_step.
Qed.

(** C1, as amended.  In every world reached from a mount by [setAuth] with
    a token other than [null], by [logout], by a failed profile fetch, and
    by a profile fetch that succeeds while the token is not [null], a [null]
    token comes with a [null] user. *)
Theorem no_token_no_user (storage : gmap string string) (w : world) :
  reachable url live_session_op storage w →
  token_absent_user_absent w.
Proof.
  intros Hr.
  induction Hr as [|w e w' Hr IH He Hs].
  - unfold token_absent_user_absent, AuthProvider. run_handler.
    by destruct (truthy (getItem storage smartplate_token)).
  - unfold token_absent_user_absent in *.
    destruct w as [u t l tc pl st fl cs].
    destruct e as [nt nu| | | |i [d|er]]; simpl in He; try done.
    + run_handler. injection Hs as <-.
      destruct (object_is t nt); simpl; [done|].
      destruct (truthy nt); simpl; done.
    + run_handler. injection Hs as <-.
      by destruct (object_is t VNull).
    + destruct He as ([tok Hi] & Hlive). run_handler.
      rewrite Hi in Hs. simpl in Hs. by injection Hs as <-.
    + destruct He as [tok Hi]. run_handler.
      rewrite Hi in Hs. simpl in Hs. injection Hs as <-.
      by destruct (object_is t VNull).
Qed.

(** ** The storage is touched under one key only *)

Section Keeps.
Context (R : relation world) `{!PreOrder R}.

Lemma keeps_ret {A} (a : A) : keeps R (ret a).
Proof. intros w. reflexivity. Qed.
Lemma keeps_throw {A} e : keeps R (throw (A:=A) e).
Proof. intros w. reflexivity. Qed.
Lemma keeps_gets {A} (f : world → A) : keeps R (gets f).
Proof. intros w. reflexivity. Qed.
Lemma keeps_bind {A B} (m : M A) (f : A → M B) :
  keeps R m → (∀ a, keeps R (f a)) → keeps R (bind m f).
Proof.
  intros Hm Hf w. unfold bind. specialize (Hm w).
  destruct (m w) as [[a|e] w1]; simpl in *; [|done].
  etrans; [exact Hm | apply Hf].
Qed.
Lemma keeps_try_catch {A} (m : M A) (h : value → M A) :
  keeps R m → (∀ e, keeps R (h e)) → keeps R (try_catch m h).
Proof.
  intros Hm Hh w. unfold try_catch. specialize (Hm w).
  destruct (m w) as [[a|e] w1]; simpl in *; [done|].
  etrans; [exact Hm | apply Hh].
Qed.
Lemma keeps_try_finally {A} (m : M A) (fin : M unit) :
  keeps R m → keeps R fin → keeps R (try_finally m fin).
Proof.
  intros Hm Hf w. unfold try_finally. specialize (Hm w).
  destruct (m w) as [c w1]; simpl in *. specialize (Hf w1).
  destruct (fin w1) as [[a|e] w2]; simpl in *; by etrans.
Qed.
Lemma keeps_modify (f : world → world) :
  (∀ w, R w (f w)) → keeps R (modify f).
Proof. intros Hf w. apply Hf. Qed.
End Keeps.

Global Instance other_keys_kept_preorder : PreOrder other_keys_kept.
Proof.
  split.
  - by intros w k _.
  - intros w1 w2 w3 H12 H23 k Hk. by rewrite H23, H12.
Qed.

Ltac unfold_handlers :=
  unfold resume, fetchUser_resume, fetchUser, handleSignIn_resume,
    handleSignUp_resume, handleSignIn, handleSignUp, error_message,
    setAuth, logout, setUser, setToken, setLoading, page_setLoading,
    localStorage_setItem, localStorage_removeItem,
    axios_get, axios_post, toast_error, toast_success, navigate,
    preventDefault, log, park, await, opt_prop, prop.

Ltac keeps_tac leaf :=
  unfold_handlers;
  repeat match goal with
    | |- PreOrder _ => apply _
    | |- keeps _ (bind _ _) => apply keeps_bind
    | |- keeps _ (try_catch _ _) => apply keeps_try_catch
    | |- keeps _ (try_finally _ _) => apply keeps_try_finally
    | |- keeps _ (ret _) => apply keeps_ret
    | |- keeps _ (throw _) => apply keeps_throw
    | |- keeps _ (gets _) => apply keeps_gets
    | |- keeps _ (modify _) => apply keeps_modify; solve [leaf]
    | |- keeps _ (if ?b then _ else _) => destruct b
    | |- keeps _ (match ?x with _ => _ end) => destruct x
    | |- ∀ _, _ => intro
    end.

Ltac other_keys_leaf :=
  intros ? k Hk; simpl;
  rewrite ?lookup_insert_ne, ?lookup_delete_ne by done; done.

Lemma handlers_keep_other_keys (w : world) (e : event) (h : M unit) :
  handler url e w = Some h → keeps other_keys_kept h.
Proof.
  destruct e as [nt nu| |si|su|i r]; simpl; intros Hh; simplify_option_eq;
    keeps_tac other_keys_leaf.
Qed.

Lemma fetchUser_keeps_other_keys : keeps other_keys_kept (fetchUser url).
Proof. keeps_tac other_keys_leaf. Qed.

Lemma step_keeps_other_keys (w w' : world) (e : event) :
  step url w e = Some w' → other_keys_kept w w'.
Proof.
  unfold step. intros Hs. simplify_option_eq.
  trans (with_token_changed false w); [by intros k _|].
  trans (exec H (with_token_changed false w)).
  - by eapply handlers_keep_other_keys.
  - unfold render. case_match; [|done].
    etrans; [|apply fetchUser_keeps_other_keys]. by intros k _.
Qed.

(** ** No handler reads the storage *)

Global Instance same_but_storage_equiv : Equivalence same_but_storage.
Proof.
  unfold same_but_storage. split.
  - by intros w.
  - by intros w1 w2.
  - intros w1 w2 w3. congruence.
Qed.

Lemma blind_ret {A} (a : A) : storage_blind (ret a).
Proof. by intros w1 w2 H. Qed.
Lemma blind_throw {A} e : storage_blind (throw (A:=A) e).
Proof. by intros w1 w2 H. Qed.
Lemma blind_bind {A B} (m : M A) (f : A → M B) :
  storage_blind m → (∀ a, storage_blind (f a)) → storage_blind (bind m f).
Proof.
  intros Hm Hf w1 w2 H. unfold bind. destruct (Hm w1 w2 H) as [Hc Hw].
  destruct (m w1) as [[a1|e1] w1'], (m w2) as [[a2|e2] w2'];
    simpl in *; simplify_eq; [by apply Hf|done].
Qed.
Lemma blind_try_catch {A} (m : M A) (h : value → M A) :
  storage_blind m → (∀ e, storage_blind (h e)) →
  storage_blind (try_catch m h).
Proof.
  intros Hm Hh w1 w2 H. unfold try_catch. destruct (Hm w1 w2 H) as [Hc Hw].
  destruct (m w1) as [[a1|e1] w1'], (m w2) as [[a2|e2] w2'];
    simpl in *; simplify_eq; [done|by apply Hh].
Qed.
Lemma blind_try_finally {A} (m : M A) (fin : M unit) :
  storage_blind m → storage_blind fin → storage_blind (try_finally m fin).
Proof.
  intros Hm Hf w1 w2 H. unfold try_finally.
  destruct (Hm w1 w2 H) as [Hc Hw].
  destruct (m w1) as [c1 w1'], (m w2) as [c2 w2']; simpl in *; subst.
  destruct (Hf w1' w2' Hw) as [Hc' Hw'].
  destruct (fin w1') as [[a1|e1] w1''], (fin w2') as [[a2|e2] w2''];
    simpl in *; simplify_eq; done.
Qed.
Lemma blind_modify (f : world → world) :
  (∀ w1 w2, same_but_storage w1 w2 → same_but_storage (f w1) (f w2)) →
  storage_blind (modify f).
Proof. intros Hf w1 w2 H. split; [done|by apply Hf]. Qed.
Lemma blind_gets {A} (f : world → A) :
  (∀ w1 w2, same_but_storage w1 w2 → f w1 = f w2) →
  storage_blind (gets f).
Proof. intros Hf w1 w2 H. split; [simpl; f_equal; by apply Hf|done]. Qed.

Ltac blind_leaf :=
  intros [] [] ?%(f_equal (λ w, (user w, token w, loading w,
                     token_changed w, page_loading w, inflight w, calls w)));
  unfold same_but_storage; simpl in *; by simplify_eq.

Ltac blind_tac :=
  unfold_handlers;
  repeat match goal with
    | |- storage_blind (bind _ _) => apply blind_bind
    | |- storage_blind (try_catch _ _) => apply blind_try_catch
    | |- storage_blind (try_finally _ _) => apply blind_try_finally
    | |- storage_blind (ret _) => apply blind_ret
    | |- storage_blind (throw _) => apply blind_throw
    | |- storage_blind (gets _) => apply blind_gets; solve [blind_leaf]
    | |- storage_blind (modify _) => apply blind_modify; solve [blind_leaf]
    | |- storage_blind (if ?b then _ else _) => destruct b
    | |- storage_blind (match ?x with _ => _ end) => destruct x
    | |- ∀ _, _ => intro
    end.

Lemma handlers_storage_blind (w : world) (e : event) (h : M unit) :
  handler url e w = Some h → storage_blind h.
Proof.
  destruct e as [nt nu| |si|su|i r]; simpl; intros Hh; simplify_option_eq;
    blind_tac.
Qed.

Lemma fetchUser_storage_blind : storage_blind (fetchUser url).
Proof. blind_tac. Qed.

Lemma render_ignores_storage (w1 w2 : world) :
  same_but_storage w1 w2 →
  same_but_storage (render url w1) (render url w2).
Proof.
  intros H. unfold render.
  rewrite (f_equal token_changed H : token_changed w1 = token_changed w2).
  destruct (token_changed w2); [|done].
  apply fetchUser_storage_blind.
  revert H. destruct w1, w2. unfold same_but_storage. simpl.
  by intros [= -> -> -> -> -> -> ->].
Qed.

Lemma step_ignores_storage (w1 w2 : world) (e : event) :
  same_but_storage w1 w2 →
  match step url w1 e, step url w2 e with
  | Some w1', Some w2' => same_but_storage w1' w2'
  | None, None => True
  | _, _ => False
  end.
Proof.
  intros H. unfold step.
  assert (handler url e w1 = handler url e w2) as Hh.
  { destruct e; simpl; try done.
    by rewrite (f_equal inflight H : inflight w1 = inflight w2). }
  rewrite <- Hh. destruct (handler url e w1) as [h|] eqn:E; simpl; [|done].
  apply render_ignores_storage, (handlers_storage_blind _ _ _ E).
  revert H. destruct w1, w2. unfold same_but_storage. simpl.
  by intros [= -> -> -> -> -> -> ->].
Qed.

Lemma steps_ignore_storage (es : list event) (w1 w2 : world) :
  same_but_storage w1 w2 →
  with_localStorage ∅ <$> steps url w1 es
  = with_localStorage ∅ <$> steps url w2 es.
Proof.
  revert w1 w2. induction es as [|e es IH]; intros w1 w2 H; simpl.
  - by f_equal.
  - pose proof (step_ignores_storage w1 w2 e H) as Hs.
    destruct (step url w1 e), (step url w2 e); simpl; try done.
    by apply IH.
Qed.

Lemma mount_reads_one_key (s1 s2 : gmap string string) :
  s1 !! smartplate_token = s2 !! smartplate_token →
  same_but_storage (AuthProvider url s1) (AuthProvider url s2).
Proof.
  intros H. unfold AuthProvider, exec. apply fetchUser_storage_blind.
  unfold same_but_storage, getItem. simpl. by rewrite H.
Qed.

Lemma storage_mirrors_token_step (w w' : world) (e : event) :
  string_token_op w e → step url w e = Some w' →
  storage_mirrors_token w → storage_mirrors_token w'.
Proof.
  unfold storage_mirrors_token, getItem.
  destruct w as [u t l tc pl st fl cs].
  destruct e as [nt nu| | | |i [d|er]]; simpl; try done.
  - destruct nt; try done. intros _ Hs Hm. run_handler.
    injection Hs as <-.
    destruct (object_is t (VStr s)); simpl;
      [|destruct (negb (s =? ""))%string; simpl];
      by rewrite lookup_insert_eq.
  - intros _ Hs Hm. run_handler. injection Hs as <-.
    destruct (object_is t VNull); simpl; by rewrite lookup_delete_eq.
  - intros [tok Hi] Hs Hm. run_handler. rewrite Hi in Hs. simpl in Hs.
    by injection Hs as <-.
  - intros [tok Hi] Hs Hm. run_handler. rewrite Hi in Hs. simpl in Hs.
    injection Hs as <-.
    destruct (object_is t VNull); simpl; by rewrite lookup_delete_eq.
Qed.

(** C3, as amended.  In every world reached from a mount by [setAuth] with
    a string as token, by [logout] and by the completion of a profile fetch,
    the storage holds under the token's key exactly the token in memory (no
    entry when it is [null]); the entries under all other keys are those the
    storage had at the mount; and no run reads another key: mounted over two
    storages that agree on the token's key, the application goes through
    the same worlds, stored entries apart, whatever the events. *)
Theorem storage_key_mirrors_token (storage : gmap string string) (w : world) :
  reachable url string_token_op storage w →
  storage_mirrors_token w
  ∧ (∀ k, k ≠ smartplate_token → localStorage w !! k = storage !! k)
  ∧ ∀ (storage' : gmap string string) (es : list event),
      storage' !! smartplate_token = storage !! smartplate_token →
      with_localStorage ∅ <$> steps url (AuthProvider url storage') es
      = with_localStorage ∅ <$> steps url (AuthProvider url storage) es.
Proof.
  intros Hr. split; [|split].
  - induction Hr as [|w e w' Hr IH He Hs].
    + unfold storage_mirrors_token, AuthProvider. run_handler.
      by destruct (truthy (getItem storage smartplate_token)).
    + by eapply storage_mirrors_token_step.
  - induction Hr as [|w e w' Hr IH He Hs].
    + intros k _. unfold AuthProvider. run_handler.
      by destruct (truthy (getItem storage smartplate_token)).
    + intros k Hk. rewrite <- (IH k Hk).
      by eapply step_keeps_other_keys.
  - intros storage' es H. by apply steps_ignore_storage, mount_reads_one_key.
Qed.

(** C7, as amended.  When [setAuth] changes the token to a truthy value
    (not [null], [undefined], [false], [0] or the empty string), exactly one
    call is made, [GET /api/auth/me] with the header
    [Authorization: Bearer <token>], and [fetchUser] parks on it; whenever a
    fetch started for that token succeeds, the user becomes the response
    body, loading becomes false, and the token, the storage and the calls
    made stay as they were. *)
Theorem token_change_fetches_profile (w : world) (newToken newUser : value) :
  object_is (token w) newToken = false →
  truthy newToken = true →
  ∃ w', step url w (CallSetAuth newToken newUser) = Some w'
        ∧ token w' = newToken
        ∧ calls w' = calls w ++
            [AxiosGet (API url +:+ "/auth/me")
               [("Authorization", "Bearer " +:+ to_string newToken)]]
        ∧ inflight w' = inflight w ++ [FetchUserK newToken]
        ∧ ∀ (w2 : world) (i : nat) (data : value),
            inflight w2 !! i = Some (FetchUserK newToken) →
            ∃ w3, step url w2 (Reply i (Fulfilled data)) = Some w3
                  ∧ user w3 = data
                  ∧ token w3 = token w2
                  ∧ localStorage w3 = localStorage w2
                  ∧ loading w3 = false
                  ∧ calls w3 = calls w2.
Proof.
  intros Hch Htr. destruct w as [u t l tc pl st fl cs]. simpl in Hch.
  run_handler. rewrite Hch, Htr. simpl.
  eexists. split; [reflexivity|]. simpl. repeat split.
  intros w2 i data Hi. destruct w2 as [u2 t2 l2 tc2 pl2 st2 fl2 cs2].
  simpl in *. rewrite Hi. simpl. eexists. split; [reflexivity|]. done.
Qed.

(** ** Properties of the sign-in page *)

Lemma error_message_spec (fields : gmap string value) (fallback : string)
    (w : world) :
  error_message (VObj fields) fallback w
  = (Normal (detail_when_truthy fallback (server_detail (VObj fields))), w).
Proof.
  unfold error_message, server_detail, detail_when_truthy, or_else.
  unfold opt_prop, prop, bind, ret, throw. simpl.
  destruct (fields !! "response") as [response|]; simpl; [|done].
  destruct response as [| | | | | |rf]; simpl; try done.
  destruct (rf !! "data") as [data|]; simpl; [|done].
  destruct data as [| | | | | |df]; simpl; try done.
  destruct (df !! "detail") as [detail|]; simpl; done.
Qed.

Lemma step_reply (w : world) (i : nat) (k : continuation) (r : reply) :
  inflight w !! i = Some k →
  step url w (Reply i r)
  = Some (render url
            (exec (resume k r)
               (with_inflight (delete i (inflight w))
                  (with_token_changed false w)))).
Proof. intros Hi. unfold step. simpl. by rewrite Hi. Qed.

Lemma handleSignIn_resume_rejected (fields : gmap string value) (w : world) :
  handleSignIn_resume (Rejected (VObj fields)) w
  = (Normal tt,
     with_page_loading false
       (with_calls
          (calls w ++
             [ToastError (detail_when_truthy "Login failed"
                            (server_detail (VObj fields)))]) w)).
Proof.
  unfold handleSignIn_resume, try_finally, try_catch.
  unfold bind at 2. simpl. unfold bind. by rewrite error_message_spec.
Qed.

Lemma handleSignUp_resume_rejected (fields : gmap string value) (w : world) :
  handleSignUp_resume (Rejected (VObj fields)) w
  = (Normal tt,
     with_page_loading false
       (with_calls
          (calls w ++
             [ToastError (detail_when_truthy "Registration failed"
                            (server_detail (VObj fields)))]) w)).
Proof.
  unfold handleSignUp_resume, try_finally, try_catch.
  unfold bind at 2. simpl. unfold bind. by rewrite error_message_spec.
Qed.

(** C4, as amended.  When a pending login or registration request is
    rejected with an error object, one error toast is shown and nothing else
    is called; its text is the [detail] of the error's response body when
    there is one and it is truthy, and otherwise ['Login failed'] or
    ['Registration failed']; token, user and storage stay as they were. *)
Theorem failed_request_shows_error
    (w : world) (i : nat) (fields : gmap string value) :
  let err := VObj fields in
  (inflight w !! i = Some SignInK →
   ∃ w', step url w (Reply i (Rejected err)) = Some w'
         ∧ calls w' = calls w ++
             [ToastError (detail_when_truthy "Login failed"
                            (server_detail err))]
         ∧ token w' = token w ∧ user w' = user w
         ∧ localStorage w' = localStorage w)
  ∧ (inflight w !! i = Some SignUpK →
     ∃ w', step url w (Reply i (Rejected err)) = Some w'
           ∧ calls w' = calls w ++
               [ToastError (detail_when_truthy "Registration failed"
                              (server_detail err))]
           ∧ token w' = token w ∧ user w' = user w
           ∧ localStorage w' = localStorage w).
Proof.
  intros err. subst err.
  split; intros Hi; rewrite (step_reply _ _ _ _ Hi);
    (eexists; split; [reflexivity|]); unfold resume, exec;
    rewrite ?handleSignIn_resume_rejected, ?handleSignUp_resume_rejected;
    by destruct w.
Qed.

(** C5.  Submitting the sign-in form with an empty email or password, or
    the sign-up form with an empty name, email or password or with a
    password that differs from its confirmation, calls [preventDefault] and
    shows one error toast; no request is made or parked, and token, user
    and storage stay as they were. *)
Theorem validation_gates_requests
    (w : world) (signin : signin_state) (signup : signup_state) :
  (signin_email signin = "" ∨ signin_password signin = "" →
   ∃ w', step url w (SubmitSignIn signin) = Some w'
         ∧ calls w' = calls w ++
             [PreventDefault; ToastError (VStr "Fill all fields")]
         ∧ inflight w' = inflight w
         ∧ token w' = token w ∧ user w' = user w
         ∧ localStorage w' = localStorage w)
  ∧ (name signup = "" ∨ email signup = "" ∨ password signup = ""
     ∨ password signup ≠ confirm signup →
     ∃ w' message,
       step url w (SubmitSignUp signup) = Some w'
       ∧ calls w' = calls w ++ [PreventDefault; ToastError (VStr message)]
       ∧ (message = "Fill all fields" ∨ message = "Passwords do not match")
       ∧ inflight w' = inflight w
       ∧ token w' = token w ∧ user w' = user w
       ∧ localStorage w' = localStorage w).
Proof.
  destruct w as [u t l tc pl st fl cs],
    signin as [se sp], signup as [sn sm sp' sc sr]. simpl.
  split.
  - intros H. run_handler.
    assert (negb (negb (se =? ""))%string
            || negb (negb (sp =? ""))%string = true) as ->.
    { destruct H as [-> | ->]; simpl; [done|]. by rewrite orb_true_r. }
    simpl. rewrite <- app_assoc. eauto 10.
  - intros H. run_handler.
    destruct (negb (negb (sn =? ""))%string
              || negb (negb (sm =? ""))%string
              || negb (negb (sp' =? ""))%string) eqn:E1; simpl.
    { rewrite <- app_assoc. eauto 15. }
    destruct (negb (sp' =? sc)%string) eqn:E2; simpl.
    { rewrite <- app_assoc. eauto 15. }
    exfalso.
    apply negb_false_iff, String.eqb_eq in E2.
    destruct H as [->| [->| [->|H]]]; simpl in E1; try done.
    + by rewrite orb_true_r in E1.
    + by rewrite orb_true_r in E1.
Qed.

(** C6.  A sign-up submission that passes validation posts to
    [/auth/register] an object whose fields are exactly [name], [email],
    [password] and [role], each with the value of the form; the object has
    no [confirm] field. *)
Theorem register_body_has_four_fields (w : world) (signup : signup_state) :
  name signup ≠ "" → email signup ≠ "" → password signup ≠ "" →
  password signup = confirm signup →
  ∃ w' body,
    step url w (SubmitSignUp signup) = Some w'
    ∧ calls w' = calls w ++
        [PreventDefault; AxiosPost (API url +:+ "/auth/register") (VObj body)]
    ∧ inflight w' = inflight w ++ [SignUpK]
    ∧ dom body = {[ "name"; "email"; "password"; "role" ]}
    ∧ body !! "name" = Some (VStr (name signup))
    ∧ body !! "email" = Some (VStr (email signup))
    ∧ body !! "password" = Some (VStr (password signup))
    ∧ body !! "role" = Some (VStr (role signup))
    ∧ body !! "confirm" = None.
Proof.
  destruct w as [u t l tc pl st fl cs], signup as [sn sm sp sc sr]. simpl.
  intros Hn Hm Hp <-. run_handler.
  apply String.eqb_neq in Hn, Hm, Hp. rewrite Hn, Hm, Hp.
  rewrite String.eqb_refl. simpl.
  eexists _, _. split; [reflexivity|]. simpl.
  rewrite <- app_assoc. split; [done|]. split; [done|].
  split; [|done].
  rewrite !dom_insert_L, dom_singleton_L. set_solver.
Qed.

Lemma handleSignIn_resume_fulfilled
    (data newToken newUser userRole : value) (w : world) :
  Js.get data "token" = Some newToken →
  Js.get data "user" = Some newUser →
  Js.get newUser "role" = Some userRole →
  handleSignIn_resume (Fulfilled data) w
  = (Normal tt,
     with_page_loading false
       (exec (navigate ("/" +:+ to_string userRole +:+ "-dashboard"))
          (exec (toast_success (VStr "Welcome back!"))
             (exec (setAuth newToken newUser) w)))).
Proof.
  intros Ht Hu Hr.
  unfold handleSignIn_resume, try_finally, try_catch, bind, await, prop, ret.
  by rewrite Ht, Hu, Hr.
Qed.

Lemma handleSignUp_resume_fulfilled
    (data newToken newUser : value) (w : world) :
  Js.get data "token" = Some newToken →
  Js.get data "user" = Some newUser →
  handleSignUp_resume (Fulfilled data) w
  = (Normal tt,
     with_page_loading false
       (exec (navigate "/select-role")
          (exec (toast_success (VStr "Account created!"))
             (exec (setAuth newToken newUser) w)))).
Proof.
  intros Ht Hu.
  unfold handleSignUp_resume, try_finally, try_catch, bind, await, prop, ret.
  by rewrite Ht, Hu.
Qed.

Lemma handleSignIn_resume_no_role
    (data newToken newUser : value) (w : world) :
  Js.get data "token" = Some newToken →
  Js.get data "user" = Some newUser →
  Js.get newUser "role" = None →
  handleSignIn_resume (Fulfilled data) w
  = (Normal tt,
     with_page_loading false
       (exec (toast_error (VStr "Login failed"))
          (exec (toast_success (VStr "Welcome back!"))
             (exec (setAuth newToken newUser) w)))).
Proof.
  intros Ht Hu Hr.
  unfold handleSignIn_resume, try_finally, try_catch, bind, await, prop, ret,
    throw.
  rewrite Ht, Hu. cbn -[error_message]. rewrite Hr.
  unfold TypeError. by rewrite error_message_spec.
Qed.

(** C8, as amended.  When a login request is fulfilled with a body that is
    not [null] or [undefined], the session is set as [setAuth] sets it from
    the body's [token] and [user]; if that user is itself not [null] or
    [undefined], the success toast is followed by the one navigation, to
    ['/<user.role>-dashboard'].  When a registration request is fulfilled
    with such a body, the session is set the same way and the one navigation
    goes to ['/select-role']. *)
Theorem success_sets_session_and_navigates
    (w : world) (i : nat) (data newToken newUser : value) :
  Js.get data "token" = Some newToken →
  Js.get data "user" = Some newUser →
  (inflight w !! i = Some SignInK →
   ∃ w',
     step url w (Reply i (Fulfilled data)) = Some w'
     ∧ token w' = newToken ∧ user w' = newUser
     ∧ localStorage w'
       = <[smartplate_token := to_string newToken]> (localStorage w)
     ∧ ∀ userRole, Js.get newUser "role" = Some userRole →
         ∃ rest,
           calls w' = calls w ++
             [ToastSuccess (VStr "Welcome back!");
              Navigate ("/" +:+ to_string userRole +:+ "-dashboard")]
             ++ rest
           ∧ Forall (λ c, is_navigate c = false) rest)
  ∧ (inflight w !! i = Some SignUpK →
     ∃ w' rest,
       step url w (Reply i (Fulfilled data)) = Some w'
       ∧ token w' = newToken ∧ user w' = newUser
       ∧ localStorage w'
         = <[smartplate_token := to_string newToken]> (localStorage w)
       ∧ calls w' = calls w ++
           [ToastSuccess (VStr "Account created!");
            Navigate "/select-role"] ++ rest
       ∧ Forall (λ c, is_navigate c = false) rest).
Proof.
  intros Ht Hu. split.
  - intros Hi. rewrite (step_reply _ _ _ _ Hi). unfold resume, exec at 1.
    destruct (Js.get newUser "role") as [userRole|] eqn:Hr.
    + rewrite (handleSignIn_resume_fulfilled _ _ _ _ _ Ht Hu Hr).
      destruct w as [u t l tc pl st fl cs]. run_handler.
      destruct (object_is t newToken); simpl;
        [|destruct (truthy newToken); simpl];
        (eexists; split; [reflexivity|]); simpl;
        (repeat split; try reflexivity);
        intros ? [= <-]; rewrite <- ?app_assoc; simpl;
        eexists; (split; [reflexivity|]); by repeat constructor.
    + rewrite (handleSignIn_resume_no_role _ _ _ _ Ht Hu Hr).
      destruct w as [u t l tc pl st fl cs]. run_handler.
      destruct (object_is t newToken); simpl;
        [|destruct (truthy newToken); simpl];
        (eexists; split; [reflexivity|]); by repeat split.
  - intros Hi. rewrite (step_reply _ _ _ _ Hi).
    unfold resume, exec at 1.
    rewrite (handleSignUp_resume_fulfilled _ _ _ _ Ht Hu).
    destruct w as [u t l tc pl st fl cs]. run_handler.
    destruct (object_is t newToken); simpl;
      [|destruct (truthy newToken); simpl];
      (eexists _, _; split; [reflexivity|]); simpl;
      rewrite <- ?app_assoc; simpl;
      (repeat split; try reflexivity); by repeat constructor.
Qed.

(** ** More of the auth context *)

(** X1.  [logout] from any world: the session is cleared, nothing is called
    and nothing pending is cancelled; a second [logout] changes nothing. *)
Theorem logout_clears_and_is_idempotent (w : world) :
  ∃ w', step url w CallLogout = Some w'
        ∧ token w' = VNull ∧ user w' = VNull ∧ isAuthenticated w' = false
        ∧ localStorage w' = delete smartplate_token (localStorage w)
        ∧ calls w' = calls w
        ∧ inflight w' = inflight w
        ∧ loading w' = (if object_is (token w) VNull then loading w else false)
        ∧ step url w' CallLogout = Some w'.
Proof.
  destruct w as [u t l tc pl st fl cs]. run_handler.
  destruct (object_is t VNull); simpl;
    (eexists; split; [reflexivity|]); simpl;
    repeat split; by rewrite ?delete_delete_eq.
Qed.

Global Instance upholds_preorder (P : world → Prop) : PreOrder (upholds P).
Proof.
  split.
  - intros w H. exact H.
  - intros w1 w2 w3 H12 H23 H. apply H23, H12, H.
Qed.

Ltac handler_keeps leaf :=
  match goal with
  | H : handler _ ?e _ = Some _ |- _ =>
      destruct e; simpl in H; simplify_option_eq; keeps_tac leaf
  end.

Ltac field_leaf := intros [] ?; simpl in *; done.

Lemma step_upholds (P : world → Prop) (w w' : world) (e : event) :
  (∀ h, handler url e w = Some h → keeps (upholds P) h) →
  keeps (upholds P) (fetchUser url) →
  (∀ w b, P w → P (with_token_changed b w)) →
  step url w e = Some w' → P w → P w'.
Proof.
  intros Hh Hf Ht Hs HP. unfold step in Hs.
  destruct (handler url e w) as [h|] eqn:E; [|done]. simpl in Hs.
  injection Hs as <-.
  assert (P (exec h (with_token_changed false w))) as HP'.
  { apply (Hh h eq_refl), Ht, HP. }
  unfold render. destruct (token_changed _); [|done].
  apply Hf, Ht, HP'.
Qed.

Lemma render_upholds (P : world → Prop) (w : world) :
  keeps (upholds P) (fetchUser url) →
  (∀ w b, P w → P (with_token_changed b w)) →
  P w → P (render url w).
Proof.
  intros Hf Ht HP. unfold render. destruct (token_changed w); [|done].
  apply Hf, Ht, HP.
Qed.

(** X2.  Once the context has stopped loading, no event makes it load again:
    not [setAuth], though it starts a profile fetch, nor anything else. *)
Theorem loading_never_returns (w w' : world) (e : event) :
  step url w e = Some w' → loading w = false → loading w' = false.
Proof.
  apply (step_upholds (λ w, loading w = false)).
  - intros h Hh. handler_keeps field_leaf.
  - keeps_tac field_leaf.
  - by intros [].
Qed.

Lemma elem_of_delete_other {A} (l : list A) (i : nat) (x y : A) :
  l !! i = Some y → x ≠ y → x ∈ l → x ∈ delete i l.
Proof.
  revert i. induction l as [|z l IH]; intros i Hi Hne Hx; [done|].
  destruct i as [|i]; simpl in *.
  - injection Hi as ->. by apply elem_of_cons in Hx as [->|Hx].
  - apply elem_of_cons in Hx as [->|Hx]; [left|right; by eapply IH].
Qed.

Ltac fetching_leaf :=
  intros [] ? ?; simpl in *; try done;
  match goal with
  | HP : loading_is_fetching _, Hl : _ = true |- _ =>
      destruct (HP Hl) as [? ?]; eexists; simpl in *;
      rewrite ?elem_of_app; eauto
  end.

Lemma fetchUser_resume_stops_loading (r : reply) (w : world) :
  loading (exec (fetchUser_resume r) w) = false.
Proof.
  unfold exec, fetchUser_resume, try_finally.
  by destruct (try_catch _ _ w) as [c w1].
Qed.

Lemma step_loading_is_fetching (w w' : world) (e : event) :
  step url w e = Some w' → loading_is_fetching w → loading_is_fetching w'.
Proof.
  intros Hs HP.
  assert (keeps (upholds loading_is_fetching) (fetchUser url)) as Hf.
  { keeps_tac fetching_leaf. }
  assert (∀ w b, loading_is_fetching w →
                 loading_is_fetching (with_token_changed b w)) as Ht.
  { by intros []. }
  destruct e as [nt nu| |si|su|i r].
  1-4: revert Hs HP; apply step_upholds; [|done..];
       intros h Hh; simpl in Hh; simplify_option_eq;
       keeps_tac fetching_leaf.
  unfold step in Hs. simpl in Hs.
  destruct (inflight w !! i) as [k|] eqn:Hi; [|done]. simpl in Hs.
  injection Hs as <-.
  destruct k as [tok| |].
  - (* the reply to a profile fetch: loading ends *)
    intros Hl. exfalso. revert Hl.
    match goal with |- loading (render url ?w0) = true → _ =>
      assert (loading w0 = false) as H0 end.
    { unfold exec, bind, modify. simpl. apply fetchUser_resume_stops_loading. }
    unfold render. destruct (token_changed _); [|by rewrite H0].
    match goal with |- loading (exec _ ?w1) = true → _ =>
      assert (loading w1 = false) as H1 by (by destruct (exec _ _)) end.
    revert H1. generalize (with_token_changed false
      (exec (run modify (λ w0, with_inflight (delete i (inflight w0)) w0) ;;
             resume (FetchUserK tok) r) (with_token_changed false w))).
    intros w1 H1. unfold exec, fetchUser, bind, gets. simpl.
    destruct (negb (truthy (token w1))); simpl; [done|].
    destruct w1; simpl in *. by rewrite H1.
  - apply render_upholds; [done..|].
    unfold exec, bind, modify. simpl.
    assert (keeps (upholds loading_is_fetching) (handleSignIn_resume r)) as Hk
      by keeps_tac fetching_leaf.
    apply Hk.
    intros Hl. destruct (HP Hl) as [tok Htok]. exists tok. simpl.
    destruct w; simpl in *. by eapply elem_of_delete_other.
  - apply render_upholds; [done..|].
    unfold exec, bind, modify. simpl.
    assert (keeps (upholds loading_is_fetching) (handleSignUp_resume r)) as Hk
      by keeps_tac fetching_leaf.
    apply Hk.
    intros Hl. destruct (HP Hl) as [tok Htok]. exists tok. simpl.
    destruct w; simpl in *. by eapply elem_of_delete_other.
Qed.

(** X3.  While the context is loading a profile fetch is pending, in every
    world the application can reach: it never waits for nothing. *)
Theorem loading_means_fetching (storage : gmap string string) (w : world) :
  reachable url any_op storage w → loading_is_fetching w.
Proof.
  induction 1 as [|w e w' _ IH _ Hs].
  - unfold loading_is_fetching, profile_pending, AuthProvider. run_handler.
    destruct (truthy (getItem storage smartplate_token)); simpl; [|done].
    intros _. eexists. left.
  - by eapply step_loading_is_fetching.
Qed.

(** X4.  [setAuth], then a reload: the new provider starts from the text of the
    token, [String(newToken)], with no user; [logout], then a reload: it
    starts signed out. *)
Theorem reload_restores_stored_token (w : world) (newToken newUser : value) :
  (∃ w', step url w (CallSetAuth newToken newUser) = Some w'
         ∧ token (AuthProvider url (localStorage w'))
           = VStr (to_string newToken)
         ∧ user (AuthProvider url (localStorage w')) = VNull
         ∧ calls (AuthProvider url (localStorage w'))
           = if String.eqb (to_string newToken) "" then []
             else [AxiosGet (API url +:+ "/auth/me")
                     [("Authorization",
                       "Bearer " +:+ to_string newToken)]])
  ∧ (∃ w', step url w CallLogout = Some w'
           ∧ token (AuthProvider url (localStorage w')) = VNull
           ∧ user (AuthProvider url (localStorage w')) = VNull
           ∧ loading (AuthProvider url (localStorage w')) = false
           ∧ calls (AuthProvider url (localStorage w')) = []).
Proof.
  destruct w as [u t l tc pl st fl cs]. split.
  - run_handler.
    destruct (object_is t newToken); simpl;
      [|destruct (truthy newToken); simpl];
      (eexists; split; [reflexivity|]);
      unfold AuthProvider, getItem; run_handler;
      rewrite lookup_insert_eq; simpl;
      by destruct (to_string newToken =? "")%string.
  - run_handler.
    destruct (object_is t VNull); simpl;
      (eexists; split; [reflexivity|]);
      unfold AuthProvider, getItem; run_handler;
      by rewrite lookup_delete_eq.
Qed.

(** X5.  Mounting over any storage: the token is what the storage holds, nobody
    is authenticated yet, and the context is loading, with one profile
    request sent, exactly when the stored text is not empty. *)
Theorem mount_fetches_when_token_stored (storage : gmap string string) :
  token (AuthProvider url storage) = getItem storage smartplate_token
  ∧ user (AuthProvider url storage) = VNull
  ∧ isAuthenticated (AuthProvider url storage) = false
  ∧ localStorage (AuthProvider url storage) = storage
  ∧ match storage !! smartplate_token with
    | Some s =>
        if String.eqb s "" then
          loading (AuthProvider url storage) = false
          ∧ calls (AuthProvider url storage) = []
          ∧ inflight (AuthProvider url storage) = []
        else
          loading (AuthProvider url storage) = true
          ∧ calls (AuthProvider url storage)
            = [AxiosGet (API url +:+ "/auth/me")
                 [("Authorization", "Bearer " +:+ s)]]
          ∧ inflight (AuthProvider url storage) = [FetchUserK (VStr s)]
    | None =>
        loading (AuthProvider url storage) = false
        ∧ calls (AuthProvider url storage) = []
        ∧ inflight (AuthProvider url storage) = []
    end.
Proof.
  unfold AuthProvider, getItem, isAuthenticated. run_handler.
  destruct (storage !! smartplate_token) as [s|]; simpl; [|done].
  destruct (s =? "")%string; simpl; done.
Qed.

(** X6.  [setAuth] given the current token, or a falsy one, sends nothing: the
    user and the stored text are replaced and no request leaves. *)
Theorem same_or_falsy_token_sends_nothing
    (w : world) (newToken newUser : value) :
  object_is (token w) newToken = true ∨ truthy newToken = false →
  ∃ w', step url w (CallSetAuth newToken newUser) = Some w'
        ∧ token w' = newToken ∧ user w' = newUser
        ∧ localStorage w'
          = <[smartplate_token := to_string newToken]> (localStorage w)
        ∧ calls w' = calls w
        ∧ inflight w' = inflight w.
Proof.
  intros H. destruct w as [u t l tc pl st fl cs]. simpl in H. run_handler.
  destruct (object_is t newToken); simpl.
  - eexists. split; [reflexivity|]. done.
  - destruct H as [?|H]; [done|]. rewrite H. simpl.
    eexists. split; [reflexivity|]. done.
Qed.




(** ** More of the sign-in page *)

(** X8.  A sign-in submission with both fields filled posts to [/auth/login] an
    object whose fields are exactly [email] and [password], with the values
    of the form; the page starts loading and the session is not touched. *)
Theorem login_body_has_two_fields (w : world) (signin : signin_state) :
  signin_email signin ≠ "" → signin_password signin ≠ "" →
  ∃ w' body,
    step url w (SubmitSignIn signin) = Some w'
    ∧ calls w' = calls w ++
        [PreventDefault; AxiosPost (API url +:+ "/auth/login") (VObj body)]
    ∧ inflight w' = inflight w ++ [SignInK]
    ∧ page_loading w' = true
    ∧ dom body = {[ "email"; "password" ]}
    ∧ body !! "email" = Some (VStr (signin_email signin))
    ∧ body !! "password" = Some (VStr (signin_password signin))
    ∧ token w' = token w ∧ user w' = user w
    ∧ localStorage w' = localStorage w.
Proof.
  destruct w as [u t l tc pl st fl cs], signin as [se sp]. simpl.
  intros He Hp. run_handler.
  apply String.eqb_neq in He, Hp. rewrite He, Hp. simpl.
  eexists _, _. split; [reflexivity|]. simpl.
  rewrite <- app_assoc. do 3 (split; [done|]). split; [|done].
  rewrite dom_insert_L, dom_singleton_L. set_solver.
Qed.

Global Instance unchanged_preorder {A} (f : world → A) : PreOrder (unchanged f).
Proof.
  split.
  - by intros w.
  - intros w1 w2 w3 H12 H23. unfold unchanged in *. congruence.
Qed.

Ltac unchanged_leaf := intros []; reflexivity.

Lemma resume_parks_nothing (k : continuation) (r : reply) :
  keeps (unchanged inflight) (resume k r).
Proof. destruct k; keeps_tac unchanged_leaf. Qed.

Lemma page_resume_stops_loading (k : continuation) (r : reply) (w : world) :
  is_page_request k = true → page_loading (exec (resume k r) w) = false.
Proof.
  destruct k; [done| |]; intros _;
    unfold exec, resume, handleSignIn_resume, handleSignUp_resume, try_finally;
    by destruct (try_catch _ _ w) as [c w1].
Qed.

Lemma render_page (w : world) :
  page_loading (render url w) = page_loading w
  ∧ page_requests (inflight (render url w)) = page_requests (inflight w).
Proof.
  destruct w as [u t l tc pl st fl cs]. run_handler.
  destruct tc; simpl; [|done].
  destruct (truthy t); simpl; [|done].
  split; [done|]. unfold page_requests. rewrite filter_app. simpl.
  rewrite filter_cons_False, filter_nil by done. by rewrite app_nil_r.
Qed.

Lemma page_requests_delete_fetch (l : list continuation) (i : nat) tok :
  l !! i = Some (FetchUserK tok) →
  page_requests (delete i l) = page_requests l.
Proof.
  unfold page_requests. revert i.
  induction l as [|k l IH]; intros i Hi; [done|].
  destruct i as [|i]; simpl in *.
  - injection Hi as ->. by rewrite filter_cons_False.
  - rewrite !filter_cons. by rewrite (IH i Hi).
Qed.

Lemma page_requests_delete_page (l : list continuation) (i : nat) k :
  l !! i = Some k → is_page_request k = true →
  length (page_requests (delete i l)) + 1 = length (page_requests l).
Proof.
  unfold page_requests. revert i.
  induction l as [|k' l IH]; intros i Hi Hk; [done|].
  destruct i as [|i]; simpl in *.
  - injection Hi as ->. rewrite filter_cons_True by done. simpl. lia.
  - rewrite !filter_cons. specialize (IH i Hi Hk).
    destruct (decide (is_page_request k' = true)); simpl; lia.
Qed.

Lemma page_reply_step (w : world) (i : nat) (k : continuation) (r : reply) :
  inflight w !! i = Some k → is_page_request k = true →
  ∃ w', step url w (Reply i r) = Some w'
        ∧ page_loading w' = false
        ∧ page_requests (inflight w') = page_requests (delete i (inflight w)).
Proof.
  intros Hi Hk. rewrite (step_reply _ _ _ _ Hi). eexists.
  split; [reflexivity|].
  destruct (render_page
              (exec (resume k r)
                 (with_inflight (delete i (inflight w))
                    (with_token_changed false w)))) as [-> ->].
  split; [by apply page_resume_stops_loading|].
  unfold exec. rewrite (resume_parks_nothing k r). by destruct w.
Qed.

Lemma error_message_reason (err : value) (fallback : string) (w : world) :
  nullish err = false →
  ∃ message, error_message err fallback w = (Normal message, w).
Proof.
  destruct err as [| |b|n|s|items|fields]; intros Hn; try done;
    try (by eexists).
  eexists. apply error_message_spec.
Qed.

Lemma error_message_no_reason (err : value) (fallback : string) (w : world) :
  nullish err = true →
  error_message err fallback w = (Throw TypeError, w).
Proof. by destruct err. Qed.

(** How the handlers end after the [await], and what a rejection without
    a reason leaves behind. *)
Lemma page_resume_completion (k : continuation) (r : reply) (w : world) :
  is_page_request k = true →
  fst (resume k r w)
  = (if rejected_without_reason r then Throw TypeError else Normal tt)
  ∧ (rejected_without_reason r = true →
     snd (resume k r w) = with_page_loading false w).
Proof.
  intros Hk. destruct r as [data|err]; simpl.
  - split; [|done].
    destruct k; [done| |]; simpl;
      unfold handleSignIn_resume, handleSignUp_resume, try_finally,
        try_catch, bind, await, prop, ret, throw;
      (destruct (Js.get data "token") as [newToken|];
         [|unfold TypeError; by rewrite error_message_spec]);
      (destruct (Js.get data "user") as [newUser|];
         [|unfold TypeError; by rewrite error_message_spec]);
      cbn -[error_message]; [|done].
    destruct (Js.get newUser "role") as [userRole|]; [done|].
    unfold TypeError. by rewrite error_message_spec.
  - destruct (nullish err) eqn:Hn.
    + destruct k; [done| |]; simpl;
        unfold handleSignIn_resume, handleSignUp_resume, try_finally,
          try_catch, bind, await, throw;
        by rewrite error_message_no_reason.
    + split; [|done].
      destruct k; [done| |]; simpl;
        unfold handleSignIn_resume, handleSignUp_resume, try_finally,
          try_catch, bind, await, throw;
        match goal with |- context [error_message err ?f w] =>
          destruct (error_message_reason err f w Hn) as [message ->] end;
        done.
Qed.

(** X9.  Whatever the reply to a pending login or registration request,
    the [finally] block runs: the page stops loading and that request is no
    longer pending.  The handler ends normally, except when the request is
    rejected with [null] or [undefined]: reading [err.response] in the
    [catch] block then throws a TypeError that nothing catches, no toast
    is shown and the session is as it was. *)
Theorem reply_reenables_the_form
    (w : world) (i : nat) (k : continuation) (r : reply) :
  inflight w !! i = Some k → is_page_request k = true →
  ∃ w', step url w (Reply i r) = Some w'
        ∧ page_loading w' = false
        ∧ page_requests (inflight w') = page_requests (delete i (inflight w))
        ∧ length (page_requests (inflight w')) + 1
          = length (page_requests (inflight w))
        ∧ completion_of url (Reply i r) w
          = Some (if rejected_without_reason r
                  then Throw TypeError else Normal tt)
        ∧ (rejected_without_reason r = true →
           calls w' = calls w ∧ token w' = token w ∧ user w' = user w
           ∧ localStorage w' = localStorage w).
Proof.
  intros Hi Hk. destruct (page_reply_step w i k r Hi Hk) as (w' & Hs & Hl & Hp).
  exists w'. do 3 (split; [done|]).
  split; [rewrite Hp; by eapply page_requests_delete_page|].
  destruct (page_resume_completion k r
              (with_inflight (delete i (inflight w))
                 (with_token_changed false w)) Hk) as [Hc Hw].
  split.
  - unfold completion_of. simpl. rewrite Hi. simpl.
    unfold bind, modify. simpl.
    destruct w; simpl in *. by rewrite Hc.
  - intros Hr. rewrite (step_reply _ _ _ _ Hi) in Hs. injection Hs as <-.
    unfold exec. rewrite (Hw Hr). by destruct w.
Qed.

Lemma one_submission_step (w w' : world) (e : event) :
  button_enabled_op w e → step url w e = Some w' →
  one_submission w → one_submission w'.
Proof.
  unfold one_submission. intros He Hs HP.
  destruct e as [nt nu| |si|su|i r].
  - unfold step in Hs. simpl in Hs. injection Hs as <-.
    destruct (render_page (exec (setAuth nt nu) (with_token_changed false w)))
      as [-> ->].
    by destruct w.
  - unfold step in Hs. simpl in Hs. injection Hs as <-.
    destruct (render_page (exec logout (with_token_changed false w)))
      as [-> ->].
    by destruct w.
  - simpl in He. unfold step in Hs. simpl in Hs. injection Hs as <-.
    destruct (render_page
                (exec (handleSignIn url si) (with_token_changed false w)))
      as [-> ->].
    destruct w as [u t l tc pl st fl cs]. simpl in *. subst pl.
    run_handler.
    destruct (negb (negb (signin_email si =? ""))%string
              || negb (negb (signin_password si =? ""))%string); simpl;
      [done|].
    unfold page_requests in *. rewrite filter_app, length_app, HP. done.
  - simpl in He. unfold step in Hs. simpl in Hs. injection Hs as <-.
    destruct (render_page
                (exec (handleSignUp url su) (with_token_changed false w)))
      as [-> ->].
    destruct w as [u t l tc pl st fl cs]. simpl in *. subst pl.
    run_handler.
    destruct (negb (negb (name su =? ""))%string
              || negb (negb (email su =? ""))%string
              || negb (negb (password su =? ""))%string); simpl; [done|].
    destruct (negb (password su =? confirm su)%string); simpl; [done|].
    unfold page_requests in *. rewrite filter_app, length_app, HP. done.
  - destruct (inflight w !! i) as [k|] eqn:Hi;
      [|unfold step in Hs; simpl in Hs; by rewrite Hi in Hs].
    destruct (is_page_request k) eqn:Hk.
    + destruct (page_reply_step w i k r Hi Hk) as (w1 & Hs1 & Hpl & Hpr).
      rewrite Hs in Hs1. injection Hs1 as <-. rewrite Hpl, Hpr.
      pose proof (page_requests_delete_page _ _ _ Hi Hk) as Hlen.
      destruct (page_loading w); lia.
    + destruct k as [tok| |]; try done.
      rewrite (step_reply _ _ _ _ Hi) in Hs. injection Hs as <-.
      match goal with |- context [render url ?w0] =>
        destruct (render_page w0) as [-> ->] end.
      assert (keeps (unchanged page_loading) (fetchUser_resume r)) as Hpl
        by keeps_tac unchanged_leaf.
      unfold exec, resume. rewrite Hpl.
      rewrite (resume_parks_nothing (FetchUserK tok) r
                 : keeps (unchanged inflight) (fetchUser_resume r)).
      destruct w; simpl in *.
      by rewrite (page_requests_delete_fetch _ _ _ Hi).
Qed.

(** X10.  When forms are submitted only while the page is not loading, which is
    what the disabled submit buttons allow, the page is loading exactly
    while a login or registration request is pending, and never more than
    one is. *)
Theorem one_submission_at_a_time (storage : gmap string string) (w : world) :
  reachable url button_enabled_op storage w → one_submission w.
Proof.
  induction 1 as [|w e w' _ IH He Hs].
  - unfold one_submission, AuthProvider. run_handler.
    by destruct (truthy (getItem storage smartplate_token)).
  - by eapply one_submission_step.
Qed.

Lemma handleSignIn_resume_empty_body (data : value) (w : world) :
  nullish data = true →
  handleSignIn_resume (Fulfilled data) w
  = (Normal tt,
     with_page_loading false
       (with_calls (calls w ++ [ToastError (VStr "Login failed")]) w)).
Proof.
  intros Hn. assert (Js.get data "token" = None) as Hg by (by destruct data).
  unfold handleSignIn_resume, try_finally, try_catch, bind, await, prop, ret,
    throw.
  rewrite Hg. unfold TypeError. by rewrite error_message_spec.
Qed.

Lemma handleSignUp_resume_empty_body (data : value) (w : world) :
  nullish data = true →
  handleSignUp_resume (Fulfilled data) w
  = (Normal tt,
     with_page_loading false
       (with_calls (calls w ++ [ToastError (VStr "Registration failed")]) w)).
Proof.
  intros Hn. assert (Js.get data "token" = None) as Hg by (by destruct data).
  unfold handleSignUp_resume, try_finally, try_catch, bind, await, prop, ret,
    throw.
  rewrite Hg. unfold TypeError. by rewrite error_message_spec.
Qed.

(** X11.  A login or registration request fulfilled with a body that is [null]
    or [undefined] counts as failed: the generic error toast is shown and
    nothing else is called, the session is not touched, the page stops
    loading. *)
Theorem empty_body_counts_as_failure (w : world) (i : nat) (data : value) :
  nullish data = true →
  (inflight w !! i = Some SignInK →
   ∃ w', step url w (Reply i (Fulfilled data)) = Some w'
         ∧ calls w' = calls w ++ [ToastError (VStr "Login failed")]
         ∧ token w' = token w ∧ user w' = user w
         ∧ localStorage w' = localStorage w
         ∧ page_loading w' = false)
  ∧ (inflight w !! i = Some SignUpK →
     ∃ w', step url w (Reply i (Fulfilled data)) = Some w'
           ∧ calls w' = calls w ++ [ToastError (VStr "Registration failed")]
           ∧ token w' = token w ∧ user w' = user w
           ∧ localStorage w' = localStorage w
           ∧ page_loading w' = false).
Proof.
  intros Hn. split; intros Hi; rewrite (step_reply _ _ _ _ Hi);
    (eexists; split; [reflexivity|]); unfold resume, exec;
    rewrite ?(handleSignIn_resume_empty_body _ _ Hn),
      ?(handleSignUp_resume_empty_body _ _ Hn);
    by destruct w.
Qed.

(** X12.  A successful login is followed by the success toast, the navigation
    and then, when the token is a new one and truthy, one profile request
    bearing it: the user of the login response stands until that request
    is answered. *)
Theorem login_then_one_profile_request
    (w : world) (i : nat) (data newToken newUser userRole : value) :
  inflight w !! i = Some SignInK →
  Js.get data "token" = Some newToken →
  Js.get data "user" = Some newUser →
  Js.get newUser "role" = Some userRole →
  ∃ w', step url w (Reply i (Fulfilled data)) = Some w'
        ∧ user w' = newUser
        ∧ calls w' = calls w ++
            [ToastSuccess (VStr "Welcome back!");
             Navigate ("/" +:+ to_string userRole +:+ "-dashboard")]
            ++ profile_request_for url (token w) newToken
        ∧ inflight w' = delete i (inflight w)
                          ++ profile_fetch_for (token w) newToken
        ∧ page_loading w' = false.
Proof.
  intros Hi Ht Hu Hr. rewrite (step_reply _ _ _ _ Hi).
  unfold resume, exec at 1.
  rewrite (handleSignIn_resume_fulfilled _ _ _ _ _ Ht Hu Hr).
  destruct w as [u t l tc pl st fl cs].
  unfold profile_request_for, profile_fetch_for. run_handler.
  destruct (object_is t newToken); simpl;
    [|destruct (truthy newToken); simpl];
    (eexists; split; [reflexivity|]); simpl;
    rewrite <- ?app_assoc, ?app_nil_r; done.
Qed.

(** X13.  The role of the sign-up form is always one of the roles the selector
    offers, [donor] until one is picked, and it is the role a registration
    request carries. *)
Theorem registered_role_is_offered (w : world) (edits : list signup_edit) :
  Forall form_edit edits →
  role (foldl setSignup initial_signup edits) ∈ offered_roles
  ∧ ((∀ v, EditRole v ∉ edits) →
     role (foldl setSignup initial_signup edits) = "donor")
  ∧ ∀ w' u body,
      step url w (SubmitSignUp (foldl setSignup initial_signup edits))
      = Some w' →
      AxiosPost u (VObj body) ∈ calls w' →
      AxiosPost u (VObj body) ∈ calls w
      ∨ body !! "role"
        = Some (VStr (role (foldl setSignup initial_signup edits))).
Proof.
  intros Hed. split; [|split].
  - assert (role initial_signup ∈ offered_roles) as H0 by (by left).
    revert H0. generalize initial_signup.
    induction Hed as [|e edits He _ IH]; intros s Hs; [done|].
    simpl. apply IH. destruct e; simpl in *; done.
  - clear Hed. assert (role initial_signup = "donor") as H0 by done.
    revert H0. generalize initial_signup.
    induction edits as [|e edits IH]; intros s Hs Hno; [done|].
    simpl. apply IH.
    + destruct e; simpl; try done. exfalso. apply (Hno v). left.
    + intros v Hv. apply (Hno v). by right.
  - generalize (foldl setSignup initial_signup edits). clear.
    intros signup w' u body Hs Hin.
    destruct w as [us t l tc pl st fl cs]. run_handler.
    injection Hs as <-. revert Hin.
    destruct (negb (negb (name signup =? ""))%string
              || negb (negb (email signup =? ""))%string
              || negb (negb (password signup =? ""))%string); simpl;
      [|destruct (negb (password signup =? confirm signup)%string); simpl];
      rewrite <- ?app_assoc; simpl;
      rewrite elem_of_app, !elem_of_cons, elem_of_nil;
      intros [?|[?|[?|[]]]]; try done; auto.
    right. by simplify_eq.
Qed.

End Properties.

(* ===================================================================== *)
(** * Properties of the map widget *)
(* ===================================================================== *)

Section MapProperties.
Import MapComponent.
Context `{Coordinate number}.
Implicit Types (c : component (number:=number)) (p : props (number:=number)).
Implicit Types (o : outcome (number:=number)).

Lemma filter_all {A} (P : A → Prop) `{!∀ x, Decision (P x)} (l : list A) :
  (∀ x, P x) → filter P l = l.
Proof.
  intros HP. induction l as [|x l IH]; [done|].
  rewrite filter_cons_True by done. by f_equal.
Qed.

Lemma filter_none {A} (P : A → Prop) `{!∀ x, Decision (P x)} (l : list A) :
  (∀ x, x ∈ l → ¬ P x) → filter P l = [].
Proof.
  induction l as [|x l IH]; intros HP; [done|].
  rewrite filter_cons_False by (apply HP; left).
  apply IH. intros y Hy. apply HP. by right.
Qed.

(** *** Outcomes *)

Lemma and_then_Done o (f : component → outcome) c :
  and_then o f = Done c → ∃ c1, o = Done c1 ∧ f c1 = Done c.
Proof. destruct o as [c1|c1]; simpl; [by exists c1|done]. Qed.

(** A property of the refs that an effect keeps, however it ends, is kept
    by what runs after it as well. *)
Lemma and_then_keeps (P : component → Prop) o (f : component → outcome) :
  P (state_of o) → (∀ c, P c → P (state_of (f c))) →
  P (state_of (and_then o f)).
Proof. destruct o; simpl; auto. Qed.

Lemma forEach_keeps {A} (P : component → Prop)
    (f : component → A → outcome) (l : list A) c :
  (∀ c x, P c → P (state_of (f c x))) → P c → P (state_of (forEach f c l)).
Proof.
  intros Hf. revert c. induction l as [|x l IH]; intros c Hc; [done|].
  simpl. apply and_then_keeps; auto.
Qed.

Lemma toLatLng_valid (ll : latlng) :
  valid ll = true → toLatLng (lat ll) (lng ll) = Some (lat ll, lng ll).
Proof.
  unfold valid, toLatLng. by destruct (isNaN (lat ll) || isNaN (lng ll)).
Qed.

Lemma finite_view_valid p : finite_view p = true → valid (center p) = true.
Proof.
  unfold finite_view, finite, valid.
  destruct (isNaN (lat (center p))), (isNaN (lng (center p))); simpl;
    rewrite ?andb_false_r; done.
Qed.

Lemma toLatLng_invalid (ll : latlng) :
  valid ll = false → toLatLng (lat ll) (lng ll) = None.
Proof.
  unfold valid, toLatLng. by destruct (isNaN (lat ll) || isNaN (lng ll)).
Qed.

(** *** Clearing *)

Lemma remove_all c (ids : list nat) :
  let c' := foldl marker_remove c ids in
  mapRef c' = mapRef c
  ∧ mapInstanceRef c'
    = (λ m, with_layers (filter (λ x, marker_id x ∉ ids) (layers m)) m)
        <$> mapInstanceRef c
  ∧ markersRef c' = markersRef c
  ∧ next_marker c' = next_marker c
  ∧ leaflet_calls c' = leaflet_calls c ++ (Remove <$> ids).
Proof.
  revert c. induction ids as [|id ids IH]; intros c; simpl.
  - repeat split; [|by rewrite app_nil_r].
    destruct (mapInstanceRef c) as [[]|]; simpl; [|done].
    unfold with_layers. simpl. do 2 f_equal.
    symmetry. apply filter_all. intros x. apply not_elem_of_nil.
  - destruct (IH (marker_remove c id)) as (H1 & H2 & H3 & H4 & H5).
    rewrite H1, H2, H3, H4, H5. simpl. repeat split.
    + destruct (mapInstanceRef c) as [m|]; simpl; [|done].
      unfold with_layers. simpl. do 2 f_equal.
      rewrite list_filter_filter. apply list_filter_iff.
      intros x. rewrite not_elem_of_cons. tauto.
    + by rewrite <- app_assoc.
Qed.

Lemma clear_markers_tracked c m :
  mapInstanceRef c = Some m →
  (∀ x, x ∈ layers m → marker_id x ∈ markersRef c) →
  mapRef (clear_markers c) = mapRef c
  ∧ mapInstanceRef (clear_markers c) = Some (with_layers [] m)
  ∧ markersRef (clear_markers c) = []
  ∧ next_marker (clear_markers c) = next_marker c
  ∧ leaflet_calls (clear_markers c)
    = leaflet_calls c ++ (Remove <$> markersRef c).
Proof.
  intros Hm Hin. unfold clear_markers. simpl.
  destruct (remove_all c (markersRef c)) as (H1 & H2 & H3 & H4 & H5).
  rewrite H1, H2, H4, H5, Hm. simpl. repeat split.
  do 2 f_equal. apply filter_none. intros x Hx Hn. by apply Hn, Hin.
Qed.

Lemma clear_markers_spec c :
  consistent c →
  ∃ m, mapInstanceRef (clear_markers c) = Some (with_layers [] m)
       ∧ mapInstanceRef c = Some m
       ∧ markersRef (clear_markers c) = []
       ∧ next_marker (clear_markers c) = next_marker c
       ∧ leaflet_calls (clear_markers c)
         = leaflet_calls c ++ (Remove <$> markersRef c).
Proof.
  intros (m & Hm & Hids & _). exists m.
  destruct (clear_markers_tracked c m Hm) as (_ & H2 & H3 & H4 & H5);
    [|done].
  intros x Hx. rewrite <- Hids. by apply list_elem_of_fmap_2.
Qed.

(** *** Adding *)

Lemma bind_popup_older (id : nat) (content : string) (l : list marker) :
  Forall (λ x : marker (number:=number), marker_id x < id) l →
  bind_popup id content l = l.
Proof.
  intros Hl. unfold bind_popup. rewrite <- (list_fmap_id l) at 2.
  apply Forall_fmap_ext. eapply Forall_impl; [exact Hl|].
  intros x Hx. simpl in *. case_decide; [lia|done].
Qed.

Lemma add_marker_skip c (md : markerData) :
  position md = None → add_marker c md = Done c.
Proof. intros Hpos. unfold add_marker. by rewrite Hpos. Qed.

Lemma add_marker_invalid c m (md : markerData) :
  mapInstanceRef c = Some m → valid_entry md = false →
  add_marker c md = Thrown c.
Proof.
  unfold valid_entry, add_marker. intros Hm Hv.
  destruct (position md) as [pos|]; [|done].
  by rewrite Hm, toLatLng_invalid.
Qed.

Lemma add_marker_shown c m (md : markerData) (pos : latlng) :
  position md = Some pos →
  valid pos = true →
  mapInstanceRef c = Some m →
  Forall (λ x, marker_id x < next_marker c) (layers m) →
  add_marker c md
  = Done
      {| mapRef := mapRef c;
         mapInstanceRef := Some
           (with_layers
              (layers m ++
                 [{| marker_id := next_marker c;
                     marker_latlng := (lat pos, lng pos);
                     icon := icon_for (type md);
                     popup := popup_for (title md) |}]) m);
         markersRef := markersRef c ++ [next_marker c];
         next_marker := S (next_marker c);
         leaflet_calls :=
           leaflet_calls c ++ AddTo (next_marker c) ::
             match popup_for (title md) with
             | Some content => [BindPopup (next_marker c) content]
             | None => []
             end |}.
Proof.
  intros Hpos Hv Hm Hlt. unfold add_marker.
  rewrite Hpos, Hm, (toLatLng_valid pos Hv).
  f_equal. f_equal. do 2 f_equal.
  destruct (popup_for (title md)) as [content|]; [|done].
  unfold bind_popup. rewrite fmap_app.
  fold (bind_popup (next_marker c) content (layers m)).
  rewrite bind_popup_older by done. simpl.
  by rewrite decide_True.
Qed.

Lemma add_marker_tracked c (md : markerData) :
  tracked c → tracked (state_of (add_marker c md)).
Proof.
  intros [(m & Hm & Hids & Hlt) Hnd].
  destruct (position md) as [pos|] eqn:Hpos.
  2: { rewrite add_marker_skip by done. split; [by exists m|done]. }
  destruct (valid pos) eqn:Hv.
  2: { rewrite (add_marker_invalid c m);
         [|done|by unfold valid_entry; rewrite Hpos].
       split; [by exists m|done]. }
  rewrite (add_marker_shown c m md pos) by done. simpl. split.
  - eexists. split; [done|]. simpl. split; [by rewrite fmap_app, Hids|].
    apply Forall_app. split.
    + eapply Forall_impl; [exact Hlt|]. simpl. lia.
    + repeat constructor; simpl; lia.
  - apply NoDup_app. split; [done|]. split; [|apply NoDup_singleton].
    intros id Hid Hid'. apply list_elem_of_singleton in Hid'.
    rewrite <- Hids in Hid.
    apply list_elem_of_fmap in Hid as (x & Hx & Hin).
    rewrite Forall_forall in Hlt. apply Hlt in Hin. lia.
Qed.

Lemma add_markers_spec (ms : list markerData) c m :
  mapInstanceRef c = Some m →
  marker_id <$> layers m = markersRef c →
  Forall (λ x, marker_id x < next_marker c) (layers m) →
  Forall (λ md, valid_entry md = true) ms →
  ∃ c', forEach add_marker c ms = Done c'
        ∧ consistent c'
        ∧ rendered c' = rendered c ++ omap expected ms
        ∧ ∃ adds, leaflet_calls c' = leaflet_calls c ++ adds
                  ∧ Forall (λ x, is_remove x = false) adds.
Proof.
  revert c m. induction ms as [|md ms IH]; intros c m Hm Hids Hlt Hv.
  - exists c. simpl. split; [done|]. split; [by exists m|].
    split; [by rewrite app_nil_r|]. exists []. by rewrite app_nil_r.
  - apply Forall_cons in Hv as [Hmd Hv].
    cbn [forEach omap list_omap].
    destruct (position md) as [pos|] eqn:Hpos.
    2: { rewrite add_marker_skip by done. unfold expected at 1.
         rewrite Hpos. simpl. by eapply IH. }
    assert (valid pos = true) as Hpv.
    { unfold valid_entry in Hmd. by rewrite Hpos in Hmd. }
    rewrite (add_marker_shown c m md pos) by done.
    unfold expected at 1. rewrite Hpos. cbn [mbind option_bind and_then].
    match goal with |- context [forEach add_marker ?c0 ms] => set (c1 := c0) end.
    destruct (IH c1 (with_layers
                       (layers m ++
                          [{| marker_id := next_marker c;
                              marker_latlng := (lat pos, lng pos);
                              icon := icon_for (type md);
                              popup := popup_for (title md) |}]) m))
      as (c' & Hrun & Hc & Hr & adds & Hcalls & Hadds).
    { done. }
    { subst c1. simpl. by rewrite fmap_app, Hids. }
    { subst c1. simpl. apply Forall_app. split.
      - eapply Forall_impl; [exact Hlt|]. simpl. lia.
      - repeat constructor; simpl; lia. }
    { done. }
    exists c'. split; [done|]. split; [done|]. split.
    + rewrite Hr. unfold rendered. subst c1. simpl. rewrite Hm.
      by rewrite fmap_app, <- app_assoc.
    + eexists. rewrite Hcalls. subst c1. simpl. rewrite <- app_assoc.
      split; [reflexivity|].
      constructor; [done|].
      destruct (popup_for (title md)); simpl; [by constructor|done].
Qed.

(** *** The effects keep the refs in step with the map *)

Lemma clear_markers_tracks c : consistent c → tracked (clear_markers c).
Proof.
  intros Hc. destruct (clear_markers_spec c Hc) as (m & H1 & H2 & H3 & H4 & H5).
  split.
  - exists (with_layers [] m). split; [exact H1|].
    split; [by rewrite H3|simpl; constructor].
  - rewrite H3. constructor.
Qed.

Lemma update_markers_tracked p c :
  tracked c → tracked (state_of (update_markers p c)).
Proof.
  intros Hc. pose proof Hc as [(m & Hm & _) _].
  unfold update_markers. rewrite Hm.
  apply (forEach_keeps tracked); [apply add_marker_tracked|].
  apply clear_markers_tracks, Hc.
Qed.

Lemma update_view_tracked p c :
  tracked c → tracked (state_of (update_view p c)).
Proof.
  intros [(m & Hm & Hids & Hlt) Hnd]. unfold update_view. rewrite Hm.
  destruct (toLatLng _ _); simpl; (split; [by eexists|done]).
Qed.

Lemma rerender_tracked p vc mc c :
  tracked c → tracked (state_of (rerender p vc mc c)).
Proof.
  intros Hc. unfold rerender. apply (and_then_keeps tracked).
  - destruct vc; [by apply update_view_tracked|done].
  - intros c1 Hc1. destruct mc; [by apply update_markers_tracked|done].
Qed.

Lemma init_map_Done p c c' :
  init_map p c = Done c' → mapInstanceRef c = None → mapRef c = true →
  valid (center p) = true
  ∧ c' = {| mapRef := true;
            mapInstanceRef := Some
              {| view := ((lat (center p), lng (center p)), zoom p);
                 tileLayers := [osm_tiles];
                 click := onClick p;
                 layers := [] |};
            markersRef := markersRef c;
            next_marker := next_marker c;
            leaflet_calls := leaflet_calls c |}.
Proof.
  unfold init_map. intros Hrun Hm Href. rewrite Hm, Href in Hrun.
  destruct (valid (center p)) eqn:Hv.
  - rewrite (toLatLng_valid _ Hv) in Hrun. by injection Hrun as <-.
  - by rewrite (toLatLng_invalid _ Hv) in Hrun.
Qed.

Lemma mount_tracked p c : mount p = Done c → tracked c ∧ mapRef c = true.
Proof.
  unfold mount. intros Hrun.
  apply and_then_Done in Hrun as (c2 & Hrun & H3).
  apply and_then_Done in Hrun as (c1 & H1 & H2).
  apply init_map_Done in H1 as [Hv ->]; [|done..].
  assert (tracked c2 ∧ mapRef c2 = true) as [Hc2 Href2].
  { unfold update_view in H2. simpl in H2.
    rewrite (toLatLng_valid _ Hv) in H2. injection H2 as <-. simpl.
    split; [|done]. split; [|constructor].
    eexists. split; [done|]. split; [done|]. constructor. }
  pose proof (update_markers_tracked p c2 Hc2) as Hc. rewrite H3 in Hc.
  split; [exact Hc|].
  assert (mapRef (state_of (update_markers p c2)) = true) as Href;
    [|by rewrite H3 in Href].
  destruct Hc2 as [(m & Hm & Hids & _) _].
  unfold update_markers. rewrite Hm.
  apply (forEach_keeps (λ c, mapRef c = true)).
  - intros c0 md Hc0. unfold add_marker.
    destruct (position md), (mapInstanceRef c0); try done.
    by destruct (toLatLng _ _).
  - destruct (clear_markers_tracked c2 m Hm) as (Href & _); [|congruence].
    intros x Hx. rewrite <- Hids. by apply list_elem_of_fmap_2.
Qed.

Lemma rerender_mapRef p vc mc c :
  tracked c → mapRef c = true → mapRef (state_of (rerender p vc mc c)) = true.
Proof.
  intros Hc Href. unfold rerender.
  apply (and_then_keeps (λ c, tracked c ∧ mapRef c = true)).
  - destruct vc; [|done]. split; [by apply update_view_tracked|].
    unfold update_view. destruct (mapInstanceRef c); [|done].
    by destruct (toLatLng _ _).
  - clear c Hc Href. intros c [Hc Href]. destruct mc; [|done].
    split; [by apply update_markers_tracked|].
    destruct Hc as [(m & Hm & Hids & _) _].
    unfold update_markers. rewrite Hm.
    apply (forEach_keeps (λ c, mapRef c = true)).
    + intros c0 md Hc0. unfold add_marker.
      destruct (position md), (mapInstanceRef c0); try done.
      by destruct (toLatLng _ _).
    + destruct (clear_markers_tracked c m Hm) as (Href' & _); [|congruence].
      intros x Hx. rewrite <- Hids. by apply list_elem_of_fmap_2.
Qed.

Lemma mounted_tracked c : mounted c → tracked c ∧ mapRef c = true.
Proof.
  induction 1 as [p c Hrun|p vc mc c c' _ [IH Href] Hrun].
  - by apply (mount_tracked p).
  - split.
    + pose proof (rerender_tracked p vc mc c IH) as Hc. by rewrite Hrun in Hc.
    + pose proof (rerender_mapRef p vc mc c IH Href) as Hc.
      by rewrite Hrun in Hc.
Qed.

Lemma mounted_consistent c : mounted c → consistent c.
Proof. intros Hc. by apply mounted_tracked in Hc as [[Hc _] _]. Qed.

Lemma update_markers_spec p c :
  consistent c →
  Forall (λ md, valid_entry md = true) (markers p) →
  ∃ c', update_markers p c = Done c'
        ∧ consistent c'
        ∧ rendered c' = omap expected (markers p)
        ∧ ∃ adds,
            leaflet_calls c'
            = leaflet_calls c ++ (Remove <$> on_map c) ++ adds
            ∧ Forall (λ x, is_remove x = false) adds.
Proof.
  intros Hc Hv.
  assert (on_map c = markersRef c) as ->.
  { destruct Hc as (m & Hm & Hids & _). unfold on_map. by rewrite Hm. }
  destruct (clear_markers_spec c Hc) as (m & H1 & H2 & H3 & H4 & H5).
  assert (rendered (clear_markers c) = []) as Hclear.
  { unfold rendered. by rewrite H1. }
  unfold update_markers. rewrite H2.
  destruct (add_markers_spec (markers p) (clear_markers c) _ H1)
    as (c' & Hrun & Hc' & Hr & adds & Hcalls & Hadds); simpl.
  - by rewrite ?H3.
  - constructor.
  - done.
  - exists c'. split; [done|]. split; [done|].
    split; [by rewrite Hr, Hclear|].
    exists adds. by rewrite Hcalls, H5, <- app_assoc.
Qed.

Lemma update_view_spec p c :
  consistent c → finite_view p = true →
  ∃ c', update_view p c = Done c'
        ∧ consistent c'
        ∧ on_map c' = on_map c
        ∧ leaflet_calls c' = leaflet_calls c
        ∧ rendered c' = rendered c
        ∧ markersRef c' = markersRef c.
Proof.
  intros (m & Hm & Hids & Hlt) Hv%finite_view_valid. unfold update_view.
  rewrite Hm, (toLatLng_valid _ Hv). eexists. split; [done|].
  split; [by eexists|]. unfold on_map, rendered. simpl. by rewrite Hm.
Qed.

(** C9, as amended.  In a mounted component, a render with a new
    [markers] list in which every position has coordinates that are
    numbers (and with a centre and a zoom that are finite numbers, if the
    view changes in the same render, for the view effect runs first) runs
    its effects to the end: [remove] is called on every marker
    on the map, which leaves the map without markers, and only then markers
    are added; afterwards the map shows, in the order of the list, one
    marker for each entry that has a position, and nothing for the entries
    that have none. *)
Theorem markers_effect_replaces_markers c p (vc : bool) :
  mounted c →
  (vc = true → finite_view p = true) →
  Forall (λ md, valid_entry md = true) (markers p) →
  rendered (clear_markers c) = []
  ∧ ∃ c', rerender p vc true c = Done c'
          ∧ mounted c'
          ∧ rendered c' = omap expected (markers p)
          ∧ ∃ adds,
              leaflet_calls c'
              = leaflet_calls c ++ (Remove <$> on_map c) ++ adds
              ∧ Forall (λ x, is_remove x = false) adds.
Proof.
  intros Hm Hview Hv. pose proof (mounted_consistent c Hm) as Hc. split.
  { destruct (clear_markers_spec c Hc) as (m & H1 & _).
    unfold rendered. by rewrite H1. }
  assert (∃ c1, (if vc then update_view p c else Done c) = Done c1
                ∧ consistent c1 ∧ on_map c1 = on_map c
                ∧ leaflet_calls c1 = leaflet_calls c)
    as (c1 & H1 & Hc1 & Hon & Hcalls).
  { destruct vc; [|by exists c].
    destruct (update_view_spec p c Hc (Hview eq_refl))
      as (c1 & ? & ? & ? & ? & _). by exists c1. }
  destruct (update_markers_spec p c1 Hc1 Hv)
    as (c' & H2 & _ & Hr & adds & Hcalls' & Hadds).
  assert (rerender p vc true c = Done c') as Hrun.
  { unfold rerender. by rewrite H1. }
  exists c'. split; [done|]. split; [by eapply mounted_rerender|].
  split; [done|]. exists adds. by rewrite Hcalls', Hcalls, Hon.
Qed.

(** ** More of the map widget *)

Lemma add_marker_fixtures c (md : markerData) :
  fixtures (state_of (add_marker c md)) = fixtures c.
Proof.
  unfold fixtures, add_marker.
  destruct (position md); [|done].
  destruct (mapInstanceRef c) eqn:E; simpl; [|by rewrite E].
  destruct (toLatLng _ _); simpl; by rewrite ?E.
Qed.

Lemma foldl_marker_remove_fixtures c (ids : list nat) :
  fixtures (foldl marker_remove c ids) = fixtures c.
Proof.
  revert c. induction ids as [|id ids IH]; intros c; simpl; [done|].
  rewrite IH. unfold fixtures, marker_remove. simpl.
  by destruct (mapInstanceRef c).
Qed.

Lemma update_markers_fixtures p c :
  fixtures (state_of (update_markers p c)) = fixtures c.
Proof.
  unfold update_markers. destruct (mapInstanceRef c) eqn:E; [|done].
  transitivity (fixtures (clear_markers c)).
  - apply (forEach_keeps (λ c', fixtures c' = fixtures (clear_markers c)));
      [|done].
    intros c0 md <-. apply add_marker_fixtures.
  - unfold clear_markers, fixtures. simpl.
    apply (foldl_marker_remove_fixtures c (markersRef c)).
Qed.

Lemma update_view_fixtures p c :
  fixtures (state_of (update_view p c)) = fixtures c.
Proof.
  unfold update_view, fixtures.
  destruct (mapInstanceRef c) eqn:E; simpl; [|by rewrite E].
  destruct (toLatLng _ _); simpl; by rewrite ?E.
Qed.

Lemma mount_fixtures p0 :
  fixtures (state_of (mount p0))
  = if valid (center p0) then Some ([osm_tiles], onClick p0) else None.
Proof.
  unfold mount, init_map. simpl. destruct (valid (center p0)) eqn:Hv.
  - rewrite (toLatLng_valid _ Hv). cbn [and_then].
    apply (and_then_keeps (λ c, fixtures c = Some ([osm_tiles], onClick p0))).
    + by rewrite update_view_fixtures.
    + intros c Hc. by rewrite update_markers_fixtures.
  - by rewrite (toLatLng_invalid _ Hv).
Qed.

Lemma rerender_fixtures p vc mc c :
  fixtures (state_of (rerender p vc mc c)) = fixtures c.
Proof.
  unfold rerender. apply (and_then_keeps (λ c', fixtures c' = fixtures c)).
  - destruct vc; [apply update_view_fixtures|done].
  - intros c1 <-. destruct mc; [apply update_markers_fixtures|done].
Qed.

Lemma mount_spec p :
  finite_view p = true →
  Forall (λ md, valid_entry md = true) (markers p) →
  ∃ c0, mount p = Done c0 ∧ rendered c0 = omap expected (markers p).
Proof.
  intros Hview%finite_view_valid Hv.
  unfold mount, init_map, update_view. simpl.
  rewrite !(toLatLng_valid _ Hview). simpl.
  rewrite ?(toLatLng_valid _ Hview). simpl.
  unfold update_markers. simpl.
  edestruct (add_markers_spec (markers p)) as (c0 & Hrun & _ & Hr & _);
    [| | | |exists c0; split; [exact Hrun|rewrite Hr]]; simpl; try done.
Qed.

Lemma rerender_spec p vc mc c :
  consistent c →
  (vc = true → finite_view p = true) →
  (mc = true → Forall (λ md, valid_entry md = true) (markers p)) →
  ∃ c', rerender p vc mc c = Done c'
        ∧ (mc = false →
           rendered c' = rendered c
           ∧ markersRef c' = markersRef c
           ∧ leaflet_calls c' = leaflet_calls c).
Proof.
  intros Hc Hview Hv. unfold rerender.
  assert (∃ c1, (if vc then update_view p c else Done c) = Done c1
                ∧ consistent c1 ∧ rendered c1 = rendered c
                ∧ markersRef c1 = markersRef c
                ∧ leaflet_calls c1 = leaflet_calls c)
    as (c1 & -> & Hc1 & Hr & Hm & Hl).
  { destruct vc; [|by exists c].
    destruct (update_view_spec p c Hc (Hview eq_refl))
      as (c1 & ? & ? & ? & ? & ? & ?). by exists c1. }
  simpl. destruct mc.
  - destruct (update_markers_spec p c1 Hc1 (Hv eq_refl)) as (c' & -> & _).
    by exists c'.
  - by exists c1.
Qed.

(** X14.  The map is set up once.  A mount with a centre and a zoom that
    are finite numbers, and markers whose coordinates are numbers, stores a
    map with the OpenStreetMap tile layer and a click handler exactly if
    [onClick] was given.  No later render of the mounted component that
    runs to its end (its centre and zoom, if new, finite numbers; the
    coordinates of its markers, if new, numbers) changes the tile layers
    or the click handler; and a render whose [markers] are the same array
    leaves the markers and their calls as they were. *)
Theorem map_is_set_up_once p0 p (vc mc : bool) c :
  finite_view p0 = true →
  Forall (λ md, valid_entry md = true) (markers p0) →
  mounted c →
  (vc = true → finite_view p = true) →
  (mc = true → Forall (λ md, valid_entry md = true) (markers p)) →
  ∃ c0 c' c'',
    mount p0 = Done c0
    ∧ fixtures c0 = Some ([osm_tiles], onClick p0)
    ∧ rerender p vc mc c = Done c'
    ∧ fixtures c' = fixtures c
    ∧ rerender p vc false c = Done c''
    ∧ rendered c'' = rendered c
    ∧ markersRef c'' = markersRef c
    ∧ leaflet_calls c'' = leaflet_calls c.
Proof.
  intros Hview0 Hv0 Hc%mounted_consistent Hview Hv.
  destruct (mount_spec p0 Hview0 Hv0) as (c0 & Hmount & _).
  destruct (rerender_spec p vc mc c Hc Hview Hv) as (c' & Hrun & _).
  destruct (rerender_spec p vc false c Hc Hview) as (c'' & Hrun' & Hsame);
    [done|].
  exists c0, c', c''. split; [done|]. split.
  { pose proof (mount_fixtures p0) as Hfix. rewrite Hmount in Hfix.
    by rewrite (finite_view_valid _ Hview0) in Hfix. }
  split; [done|]. split.
  { pose proof (rerender_fixtures p vc mc c) as Hfix.
    by rewrite Hrun in Hfix. }
  split; [done|]. by apply Hsame.
Qed.

(** X15.  Running the cleanup and then the three effects again, as a second
    mount over the same refs does, with props whose centre and zoom are
    finite numbers and whose marker positions have coordinates that are
    numbers, runs to the end, sets the map up anew and shows exactly the
    markers of the props, each once, as a first mount does. *)
Theorem remount_shows_the_same c p :
  mounted c →
  finite_view p = true →
  Forall (λ md, valid_entry md = true) (markers p) →
  ∃ c' c0,
    remount p c = Done c'
    ∧ mount p = Done c0
    ∧ rendered c' = rendered c0
    ∧ rendered c' = omap expected (markers p)
    ∧ fixtures c' = Some ([osm_tiles], onClick p)
    ∧ consistent c'.
Proof.
  intros Hc Hfin Hv. pose proof (finite_view_valid _ Hfin) as Hview.
  apply mounted_tracked in Hc as [[(m & Hm & _) _] Href].
  (* the first mount *)
  destruct (mount_spec p Hfin Hv) as (c0 & Hmount & Hr0).
  (* the second one *)
  unfold remount, init_map, cleanup. rewrite Hm. simpl. rewrite Href.
  rewrite !(toLatLng_valid _ Hview). cbn [and_then].
  unfold update_view. simpl. rewrite ?(toLatLng_valid _ Hview).
  cbn [and_then].
  match goal with |- context [update_markers p ?c] => set (c1 := c) end.
  destruct (clear_markers_tracked c1
              {| view := ((lat (center p), lng (center p)), zoom p);
                 tileLayers := [osm_tiles]; click := onClick p;
                 layers := [] |}) as (_ & H1 & H2 & H3 & _).
  { done. }
  { simpl. intros x Hx. by apply elem_of_nil in Hx. }
  unfold update_markers. subst c1. cbn [mapInstanceRef].
  match goal with |- context [clear_markers ?c] => set (c1 := c) in * end.
  destruct (add_markers_spec (markers p) (clear_markers c1) _ H1)
    as (c' & Hrun & Hcons & Hr & _).
  - by rewrite H2.
  - constructor.
  - done.
  - assert (rendered (clear_markers c1) = []) as Hclear.
    { unfold rendered. by rewrite H1. }
    exists c', c0. split; [done|]. split; [done|].
    split; [by rewrite Hr, Hclear, Hr0|]. split; [by rewrite Hr, Hclear|].
    split; [|done].
    assert (fixtures (state_of (forEach add_marker (clear_markers c1)
                                  (markers p)))
            = fixtures (clear_markers c1)) as Hfix.
    { apply (forEach_keeps (λ c', fixtures c' = fixtures (clear_markers c1)));
        [|done].
      intros c2 md <-. apply add_marker_fixtures. }
    rewrite Hrun in Hfix. simpl in Hfix. rewrite Hfix.
    unfold fixtures. by rewrite H1.
Qed.

(** X16.  In a mounted component the markers that [markersRef] tracks are the
    markers on the map, in the same order, and no marker is tracked twice:
    the next clearing removes each marker once. *)
Theorem markers_ref_tracks_the_map c :
  mounted c →
  markersRef c = on_map c
  ∧ NoDup (markersRef c)
  ∧ length (rendered c) = length (markersRef c).
Proof.
  intros Hc. apply mounted_tracked in Hc as [[(m & Hm & Hids & Hlt) Hnd] _].
  unfold on_map, rendered. rewrite Hm. split; [done|]. split; [done|].
  by rewrite <- Hids, !length_fmap.
Qed.

End MapProperties.

(* ===================================================================== *)
(** * The properties at sample inputs *)
(* ===================================================================== *)

(** ** Auth context *)

(** A visit that starts with a stale token: the profile fetch fails, the
    user signs in, the new profile arrives, the user signs out. *)
Lemma no_token_no_user_witness :
  ∃ w, steps sample_url (AuthProvider sample_url stored_session)
         [Reply 0 (Rejected (VObj ∅));
          CallSetAuth (VStr "fresh-token") sample_profile;
          Reply 0 (Fulfilled sample_profile);
          CallLogout] = Some w
       ∧ token_absent_user_absent w.
Proof.
  eexists. split; [vm_compute; reflexivity|].
  apply (no_token_no_user sample_url stored_session).
  apply (reachable_steps sample_url _ _
           [Reply 0 (Rejected (VObj ∅));
            CallSetAuth (VStr "fresh-token") sample_profile;
            Reply 0 (Fulfilled sample_profile);
            CallLogout] (AuthProvider sample_url stored_session));
    [apply reachable_mount| |vm_compute; reflexivity].
  simpl. repeat split; try done; by eexists.
Defined.

(** C1 fails as stated.  A profile fetch is pending when the user logs out;
    its reply then sets the user while the token stays [null].  And
    [setAuth] called with a [null] token sets whatever user it is given. *)
Lemma stale_reply_sets_user_without_token :
  (∃ w, steps sample_url (AuthProvider sample_url stored_session)
          [CallLogout; Reply 0 (Fulfilled sample_profile)] = Some w
        ∧ reachable sample_url context_op stored_session w
        ∧ token w = VNull ∧ user w = sample_profile
        ∧ ¬ token_absent_user_absent w)
  ∧ (∃ w, steps sample_url (AuthProvider sample_url ∅)
            [CallSetAuth VNull sample_profile] = Some w
          ∧ reachable sample_url context_op ∅ w
          ∧ token w = VNull ∧ user w = sample_profile
          ∧ ¬ token_absent_user_absent w).
Proof.
  split; (eexists; split; [vm_compute; reflexivity|]); (split; [|split; [|split]]);
    try reflexivity.
  - apply (reachable_steps sample_url _ _
             [CallLogout; Reply 0 (Fulfilled sample_profile)]
             (AuthProvider sample_url stored_session));
      [apply reachable_mount| |vm_compute; reflexivity].
    simpl. repeat split; by eexists.
  - intros H. specialize (H eq_refl). vm_compute in H. discriminate.
  - apply (reachable_steps sample_url _ _
             [CallSetAuth VNull sample_profile] (AuthProvider sample_url ∅));
      [apply reachable_mount| |vm_compute; reflexivity].
    simpl. done.
  - intros H. specialize (H eq_refl). vm_compute in H. discriminate.
Qed.

Lemma failed_profile_fetch_clears_session_witness :
  ∃ w', step sample_url (AuthProvider sample_url stored_session)
          (Reply 0 (Rejected (VObj ∅))) = Some w'
        ∧ localStorage w'
          = delete smartplate_token
              (localStorage (AuthProvider sample_url stored_session))
        ∧ localStorage w' !! smartplate_token = None
        ∧ token w' = VNull
        ∧ user w' = VNull
        ∧ loading w' = false
        ∧ calls w' = calls (AuthProvider sample_url stored_session)
        ∧ inflight w'
          = delete 0 (inflight (AuthProvider sample_url stored_session)).
Proof.
  apply (failed_profile_fetch_clears_session sample_url _ 0
           (VStr "stale-token")).
  reflexivity.
Defined.

Lemma storage_key_mirrors_token_witness :
  ∃ w, steps sample_url (AuthProvider sample_url stored_session)
         [CallSetAuth (VStr "fresh-token") sample_profile;
          Reply 0 (Rejected (VObj ∅))] = Some w
       ∧ storage_mirrors_token w
       ∧ (∀ k, k ≠ smartplate_token →
               localStorage w !! k = stored_session !! k)
       ∧ ∀ (storage' : gmap string string) (es : list event),
           storage' !! smartplate_token = stored_session !! smartplate_token →
           with_localStorage ∅ <$> steps sample_url
                                      (AuthProvider sample_url storage') es
           = with_localStorage ∅ <$> steps sample_url
                                        (AuthProvider sample_url stored_session)
                                        es.
Proof.
  eexists. split; [vm_compute; reflexivity|].
  apply (storage_key_mirrors_token sample_url stored_session).
  apply (reachable_steps sample_url _ _
           [CallSetAuth (VStr "fresh-token") sample_profile;
            Reply 0 (Rejected (VObj ∅))]
           (AuthProvider sample_url stored_session));
    [apply reachable_mount| |vm_compute; reflexivity].
  simpl. repeat split; by eexists.
Defined.

(** C3 fails as stated.  [setAuth] given [null] stores the text "null"
    under the key while the token in memory is [null]. *)
Lemma null_token_is_stored_as_text :
  ∃ w, step sample_url (AuthProvider sample_url ∅) (CallSetAuth VNull VNull)
       = Some w
       ∧ context_op (AuthProvider sample_url ∅) (CallSetAuth VNull VNull)
       ∧ token w = VNull
       ∧ localStorage w !! smartplate_token = Some "null"
       ∧ ¬ storage_mirrors_token w.
Proof.
  eexists. split; [vm_compute; reflexivity|]. repeat split.
  intros H. vm_compute in H. discriminate.
Qed.

Lemma token_change_fetches_profile_witness :
  ∃ w', step sample_url (AuthProvider sample_url ∅)
          (CallSetAuth (VStr "fresh-token") sample_profile) = Some w'
        ∧ token w' = VStr "fresh-token"
        ∧ calls w'
          = [AxiosGet "https://api.smartplate.test/api/auth/me"
               [("Authorization", "Bearer fresh-token")]]
        ∧ inflight w' = [FetchUserK (VStr "fresh-token")].
Proof.
  destruct (token_change_fetches_profile sample_url (AuthProvider sample_url ∅)
              (VStr "fresh-token") sample_profile)
    as (w' & Hs & Ht & Hc & Hi & _); [vm_compute; reflexivity..|].
  exists w'. repeat split; assumption.
Defined.

(** C7 fails as stated.  [setAuth] changes the token from [null] to the
    empty string, which is not [null], and no request is made. *)
Lemma empty_token_fetches_nothing :
  ∃ w, step sample_url (AuthProvider sample_url ∅)
         (CallSetAuth (VStr "") sample_profile) = Some w
       ∧ token (AuthProvider sample_url ∅) = VNull
       ∧ token w = VStr ""
       ∧ token w ≠ VNull
       ∧ calls w = calls (AuthProvider sample_url ∅)
       ∧ inflight w = [].
Proof. eexists. split; [vm_compute; reflexivity|]. by repeat split. Qed.

Lemma null_token_fetches_nothing_witness :
  fetchUser sample_url (AuthProvider sample_url ∅)
  = (Normal tt, with_loading false (AuthProvider sample_url ∅))
  ∧ AuthProvider sample_url ∅ =
      {| user := VNull; token := VNull; loading := false;
         token_changed := false; page_loading := false;
         localStorage := ∅; inflight := []; calls := [] |}.
Proof. apply (null_token_fetches_nothing sample_url); reflexivity. Defined.

(** ** Sign-in page *)

Lemma failed_request_shows_error_witness :
  ∃ w', step sample_url awaiting_login
          (Reply 0 (Rejected (error_with_detail (VStr "Invalid credentials"))))
        = Some w'
        ∧ calls w' = calls awaiting_login ++
            [ToastError (VStr "Invalid credentials")]
        ∧ token w' = token awaiting_login ∧ user w' = user awaiting_login
        ∧ localStorage w' = localStorage awaiting_login.
Proof.
  destruct (proj1 (failed_request_shows_error sample_url awaiting_login 0
                     {[ "response" :=
                          VObj {[ "data" :=
                            VObj {[ "detail" :=
                              VStr "Invalid credentials" ]} ]} ]})
              ltac:(vm_compute; reflexivity))
    as (w' & Hs & Hc & Ht & Hu & Hl).
  exists w'. split; [exact Hs|].
  split; [rewrite Hc; vm_compute; reflexivity|]. by repeat split.
Defined.

(** C4 fails as stated.  The server's [detail] is there and is the empty
    string; the toast shows the fallback, not the detail. *)
Lemma empty_detail_shows_fallback :
  server_detail (error_with_detail (VStr "")) = Some (VStr "")
  ∧ ∃ w', step sample_url awaiting_login
            (Reply 0 (Rejected (error_with_detail (VStr "")))) = Some w'
          ∧ calls w' = calls awaiting_login ++
              [ToastError (VStr "Login failed")]
          ∧ calls w' ≠ calls awaiting_login ++
              [ToastError (detail_when_present "Login failed"
                             (server_detail (error_with_detail (VStr ""))))].
Proof.
  split; [vm_compute; reflexivity|].
  eexists. split; [vm_compute; reflexivity|].
  split; [vm_compute; reflexivity|].
  intros H. vm_compute in H. discriminate.
Qed.

Lemma validation_gates_requests_witness :
  (∃ w', step sample_url signed_out
           (SubmitSignIn {| signin_email := "";
                            signin_password := "secret" |}) = Some w'
         ∧ calls w' = calls signed_out ++
             [PreventDefault; ToastError (VStr "Fill all fields")]
         ∧ inflight w' = inflight signed_out
         ∧ token w' = token signed_out ∧ user w' = user signed_out
         ∧ localStorage w' = localStorage signed_out)
  ∧ (∃ w' message,
       step sample_url signed_out (SubmitSignUp mismatched_signup) = Some w'
       ∧ calls w' = calls signed_out ++
           [PreventDefault; ToastError (VStr message)]
       ∧ (message = "Fill all fields" ∨ message = "Passwords do not match")
       ∧ inflight w' = inflight signed_out
       ∧ token w' = token signed_out ∧ user w' = user signed_out
       ∧ localStorage w' = localStorage signed_out).
Proof.
  split.
  - apply (proj1 (validation_gates_requests sample_url signed_out
                    {| signin_email := ""; signin_password := "secret" |}
                    sample_signup)).
    left. reflexivity.
  - apply (proj2 (validation_gates_requests sample_url signed_out
                    sample_signin mismatched_signup)).
    right. right. right. simpl. discriminate.
Defined.

Lemma register_body_has_four_fields_witness :
  ∃ w' body,
    step sample_url signed_out (SubmitSignUp sample_signup) = Some w'
    ∧ calls w' = calls signed_out ++
        [PreventDefault;
         AxiosPost (API sample_url +:+ "/auth/register") (VObj body)]
    ∧ inflight w' = inflight signed_out ++ [SignUpK]
    ∧ dom body = {[ "name"; "email"; "password"; "role" ]}
    ∧ body !! "name" = Some (VStr (name sample_signup))
    ∧ body !! "email" = Some (VStr (email sample_signup))
    ∧ body !! "password" = Some (VStr (password sample_signup))
    ∧ body !! "role" = Some (VStr (role sample_signup))
    ∧ body !! "confirm" = None.
Proof.
  apply (register_body_has_four_fields sample_url signed_out sample_signup);
    simpl; done.
Defined.

Lemma success_sets_session_and_navigates_witness :
  ∃ w', step sample_url awaiting_login
          (Reply 0 (Fulfilled (session_body (VStr "fresh-token")
                                 sample_profile))) = Some w'
        ∧ token w' = VStr "fresh-token" ∧ user w' = sample_profile
        ∧ localStorage w' !! smartplate_token = Some "fresh-token"
        ∧ ∃ rest,
            calls w' = calls awaiting_login ++
              [ToastSuccess (VStr "Welcome back!");
               Navigate "/donor-dashboard"] ++ rest
            ∧ Forall (λ c, is_navigate c = false) rest.
Proof.
  destruct (proj1 (success_sets_session_and_navigates sample_url
                     awaiting_login 0
                     (session_body (VStr "fresh-token") sample_profile)
                     (VStr "fresh-token") sample_profile
                     ltac:(vm_compute; reflexivity)
                     ltac:(vm_compute; reflexivity))
              ltac:(vm_compute; reflexivity))
    as (w' & Hs & Ht & Hu & Hl & Hn).
  exists w'. split; [exact Hs|]. split; [exact Ht|]. split; [exact Hu|].
  split; [rewrite Hl; apply lookup_insert_eq|].
  apply (Hn (VStr "donor")). vm_compute; reflexivity.
Defined.

(** C8 fails as stated.  The login request is fulfilled with a body whose
    user is [null]: the session is set and the success toast shown, then
    reading the role throws, the error toast follows, and nothing
    navigates. *)
Lemma login_without_user_does_not_navigate :
  ∃ w', step sample_url awaiting_login
          (Reply 0 (Fulfilled (session_body (VStr "fresh-token") VNull)))
        = Some w'
        ∧ token w' = VStr "fresh-token" ∧ user w' = VNull
        ∧ calls w' = calls awaiting_login ++
            [ToastSuccess (VStr "Welcome back!");
             ToastError (VStr "Login failed");
             AxiosGet "https://api.smartplate.test/api/auth/me"
               [("Authorization", "Bearer fresh-token")]]
        ∧ existsb is_navigate (calls w') = false.
Proof.
  eexists. split; [vm_compute; reflexivity|].
  repeat split; vm_compute; reflexivity.
Qed.

(** ** Map widget *)

Lemma markers_effect_replaces_markers_witness :
  MapComponent.rendered (MapComponent.clear_markers sample_map) = []
  ∧ ∃ c',
      MapComponent.rerender (sample_props (reverse sample_markers))
        true true sample_map = MapComponent.Done c'
      ∧ MapComponent.mounted c'
      ∧ MapComponent.rendered c'
        = omap MapComponent.expected
            (MapComponent.markers (sample_props (reverse sample_markers)))
      ∧ ∃ adds,
          MapComponent.leaflet_calls c'
          = MapComponent.leaflet_calls sample_map
              ++ (MapComponent.Remove <$> MapComponent.on_map sample_map)
              ++ adds
          ∧ Forall (λ x, MapComponent.is_remove x = false) adds.
Proof.
  apply (markers_effect_replaces_markers sample_map
           (sample_props (reverse sample_markers)) true).
  - apply (MapComponent.mounted_mount (sample_props sample_markers)).
    vm_compute; reflexivity.
  - intros _. reflexivity.
  - vm_compute. repeat constructor.
Defined.

(** C9 fails as stated.  Every entry of the new list has a position; the
    latitude of the second is [NaN].  The old markers are removed and the
    first entry is added; [L.marker] throws at the second, and the third
    never reaches the map.  And when a render brings, with a new list, a
    centre that is not a number, [setView] throws first and the marker
    effect does not run.  Neither at the exception nor after the cleanup that follows it
    does the map show the entries of the new list. *)
Lemma invalid_coordinate_stops_the_effect :
  MapComponent.mounted sample_map
  ∧ Forall (λ md, is_Some (MapComponent.position md)) markers_with_nan
  ∧ length (omap MapComponent.expected markers_with_nan) = 3
  ∧ (∃ c',
       MapComponent.rerender (sample_props markers_with_nan)
         false true sample_map = MapComponent.Thrown c'
       ∧ MapComponent.rendered c'
         = omap MapComponent.expected (take 1 markers_with_nan)
       ∧ MapComponent.rendered c'
         ≠ omap MapComponent.expected markers_with_nan
       ∧ MapComponent.rendered (MapComponent.cleanup c') = [])
  ∧ length (omap MapComponent.expected (take 1 sample_markers)) = 1
  ∧ (∃ c',
       MapComponent.rerender (props_with_nan_centre (take 1 sample_markers))
         true true sample_map = MapComponent.Thrown c'
       ∧ MapComponent.rendered c' = MapComponent.rendered sample_map
       ∧ MapComponent.rendered c'
         ≠ omap MapComponent.expected (take 1 sample_markers)
       ∧ MapComponent.rendered (MapComponent.cleanup c') = []).
Proof.
  split.
  { apply (MapComponent.mounted_mount (sample_props sample_markers)).
    vm_compute; reflexivity. }
  split; [repeat constructor; by eexists|].
  split; [reflexivity|].
  split.
  { eexists. split; [vm_compute; reflexivity|].
    split; [vm_compute; reflexivity|]. split; [|vm_compute; reflexivity].
    intros E. apply (f_equal length) in E. vm_compute in E. discriminate. }
  split; [reflexivity|].
  eexists. split; [vm_compute; reflexivity|].
  split; [vm_compute; reflexivity|]. split; [|vm_compute; reflexivity].
  intros E. apply (f_equal length) in E. vm_compute in E. discriminate.
Qed.

(** ** More of the auth context *)

Lemma loading_never_returns_witness :
  ∃ w', step sample_url signed_out
          (CallSetAuth (VStr "fresh-token") sample_profile) = Some w'
        ∧ inflight w' = [FetchUserK (VStr "fresh-token")]
        ∧ loading w' = false.
Proof.
  eexists. split; [vm_compute; reflexivity|]. split; [reflexivity|].
  apply (loading_never_returns sample_url signed_out _
           (CallSetAuth (VStr "fresh-token") sample_profile));
    vm_compute; reflexivity.
Defined.

(** A visit that starts with a stored token; a form is submitted while the
    profile is still on its way. *)
Lemma loading_means_fetching_witness :
  ∃ w, steps sample_url (AuthProvider sample_url stored_session)
         [SubmitSignIn sample_signin] = Some w
       ∧ loading w = true
       ∧ profile_pending w.
Proof.
  eexists. split; [vm_compute; reflexivity|]. split; [reflexivity|].
  apply (loading_means_fetching sample_url stored_session); [|reflexivity].
  apply (reachable_steps sample_url _ _
           [SubmitSignIn sample_signin]
           (AuthProvider sample_url stored_session));
    [apply reachable_mount| |vm_compute; reflexivity].
  simpl. done.
Defined.

Lemma same_or_falsy_token_sends_nothing_witness :
  ∃ w', step sample_url signed_out (CallSetAuth (VStr "") sample_profile)
        = Some w'
        ∧ token w' = VStr "" ∧ user w' = sample_profile
        ∧ localStorage w'
          = <[smartplate_token := to_string (VStr "")]>
              (localStorage signed_out)
        ∧ calls w' = calls signed_out
        ∧ inflight w' = inflight signed_out.
Proof.
  apply (same_or_falsy_token_sends_nothing sample_url signed_out
           (VStr "") sample_profile).
  right. reflexivity.
Defined.


(** ** More of the sign-in page *)

Lemma login_body_has_two_fields_witness :
  ∃ w' body,
    step sample_url signed_out (SubmitSignIn sample_signin) = Some w'
    ∧ calls w' = calls signed_out ++
        [PreventDefault;
         AxiosPost (API sample_url +:+ "/auth/login") (VObj body)]
    ∧ inflight w' = inflight signed_out ++ [SignInK]
    ∧ page_loading w' = true
    ∧ dom body = {[ "email"; "password" ]}
    ∧ body !! "email" = Some (VStr "asha@example.org")
    ∧ body !! "password" = Some (VStr "secret")
    ∧ token w' = token signed_out ∧ user w' = user signed_out
    ∧ localStorage w' = localStorage signed_out.
Proof.
  apply (login_body_has_two_fields sample_url signed_out sample_signin);
    discriminate.
Defined.

(** The pending login is rejected without a reason. *)
Lemma reply_reenables_the_form_witness :
  page_loading awaiting_login = true
  ∧ ∃ w', step sample_url awaiting_login (Reply 0 (Rejected VNull))
          = Some w'
          ∧ page_loading w' = false
          ∧ page_requests (inflight w')
            = page_requests (delete 0 (inflight awaiting_login))
          ∧ length (page_requests (inflight w')) + 1
            = length (page_requests (inflight awaiting_login))
          ∧ completion_of sample_url (Reply 0 (Rejected VNull))
              awaiting_login
            = Some (Throw TypeError)
          ∧ calls w' = calls awaiting_login.
Proof.
  split; [reflexivity|].
  destruct (reply_reenables_the_form sample_url awaiting_login 0 SignInK
              (Rejected VNull) ltac:(reflexivity) ltac:(reflexivity))
    as (w' & Hs & Hl & Hp & Hn & Hc & Hq).
  exists w'. do 5 (split; [assumption|]).
  apply (Hq ltac:(reflexivity)).
Defined.

(** A failed login, then a registration: each form is submitted while
    the page is not loading. *)
Lemma one_submission_at_a_time_witness :
  ∃ w, steps sample_url (AuthProvider sample_url stored_session)
         [SubmitSignIn sample_signin;
          Reply 1 (Rejected (VObj ∅));
          SubmitSignUp sample_signup] = Some w
       ∧ page_loading w = true
       ∧ one_submission w.
Proof.
  eexists. split; [vm_compute; reflexivity|]. split; [reflexivity|].
  apply (one_submission_at_a_time sample_url stored_session).
  apply (reachable_steps sample_url _ _
           [SubmitSignIn sample_signin;
            Reply 1 (Rejected (VObj ∅));
            SubmitSignUp sample_signup]
           (AuthProvider sample_url stored_session));
    [apply reachable_mount| |vm_compute; reflexivity].
  simpl. done.
Defined.

Lemma empty_body_counts_as_failure_witness :
  ∃ w', step sample_url awaiting_login (Reply 0 (Fulfilled VUndefined))
        = Some w'
        ∧ calls w' = calls awaiting_login ++
            [ToastError (VStr "Login failed")]
        ∧ token w' = token awaiting_login ∧ user w' = user awaiting_login
        ∧ localStorage w' = localStorage awaiting_login
        ∧ page_loading w' = false.
Proof.
  apply (proj1 (empty_body_counts_as_failure sample_url awaiting_login 0
                  VUndefined ltac:(reflexivity))).
  reflexivity.
Defined.

Lemma login_then_one_profile_request_witness :
  ∃ w', step sample_url awaiting_login
          (Reply 0 (Fulfilled (session_body (VStr "fresh-token")
                                 sample_profile))) = Some w'
        ∧ user w' = sample_profile
        ∧ calls w' = calls awaiting_login ++
            [ToastSuccess (VStr "Welcome back!");
             Navigate ("/" +:+ to_string (VStr "donor") +:+ "-dashboard")]
            ++ profile_request_for sample_url (token awaiting_login)
                 (VStr "fresh-token")
        ∧ inflight w' = delete 0 (inflight awaiting_login)
                          ++ profile_fetch_for (token awaiting_login)
                               (VStr "fresh-token")
        ∧ page_loading w' = false.
Proof.
  apply (login_then_one_profile_request sample_url awaiting_login 0
           (session_body (VStr "fresh-token") sample_profile)
           (VStr "fresh-token") sample_profile (VStr "donor"));
    vm_compute; reflexivity.
Defined.

Lemma registered_role_is_offered_witness :
  role (foldl setSignup initial_signup
          [EditName "Asha"; EditRole "ngo"; EditPassword "secret"]) = "ngo"
  ∧ role (foldl setSignup initial_signup
            [EditName "Asha"; EditRole "ngo"; EditPassword "secret"])
    ∈ offered_roles.
Proof.
  split; [reflexivity|].
  apply (registered_role_is_offered sample_url signed_out
           [EditName "Asha"; EditRole "ngo"; EditPassword "secret"]).
  repeat constructor.
Defined.

(** ** More of the map widget *)

Lemma map_is_set_up_once_witness :
  ∃ c0 c' c'',
    MapComponent.mount (sample_props sample_markers) = MapComponent.Done c0
    ∧ MapComponent.fixtures c0
      = Some ([MapComponent.osm_tiles],
              MapComponent.onClick (sample_props sample_markers))
    ∧ MapComponent.rerender (sample_props (reverse sample_markers))
        true true sample_map = MapComponent.Done c'
    ∧ MapComponent.fixtures c' = MapComponent.fixtures sample_map
    ∧ MapComponent.rerender (sample_props (reverse sample_markers))
        true false sample_map = MapComponent.Done c''
    ∧ MapComponent.rendered c'' = MapComponent.rendered sample_map
    ∧ MapComponent.markersRef c'' = MapComponent.markersRef sample_map
    ∧ MapComponent.leaflet_calls c''
      = MapComponent.leaflet_calls sample_map.
Proof.
  apply (map_is_set_up_once (sample_props sample_markers)
           (sample_props (reverse sample_markers)) true true sample_map).
  - reflexivity.
  - vm_compute. repeat constructor.
  - apply (MapComponent.mounted_mount (sample_props sample_markers)).
    vm_compute; reflexivity.
  - intros _. reflexivity.
  - intros _. vm_compute. repeat constructor.
Defined.

Lemma remount_shows_the_same_witness :
  ∃ c' c0,
    MapComponent.remount (sample_props (reverse sample_markers)) sample_map
    = MapComponent.Done c'
    ∧ MapComponent.mount (sample_props (reverse sample_markers))
      = MapComponent.Done c0
    ∧ MapComponent.rendered c' = MapComponent.rendered c0
    ∧ MapComponent.rendered c'
      = omap MapComponent.expected
          (MapComponent.markers (sample_props (reverse sample_markers)))
    ∧ MapComponent.fixtures c'
      = Some ([MapComponent.osm_tiles],
              MapComponent.onClick (sample_props (reverse sample_markers)))
    ∧ MapComponent.consistent c'.
Proof.
  apply (remount_shows_the_same sample_map
           (sample_props (reverse sample_markers))).
  - apply (MapComponent.mounted_mount (sample_props sample_markers)).
    vm_compute; reflexivity.
  - reflexivity.
  - vm_compute. repeat constructor.
Defined.

Lemma markers_ref_tracks_the_map_witness :
  ∃ c,
    MapComponent.rerender (sample_props (reverse sample_markers))
      true true sample_map = MapComponent.Done c
    ∧ MapComponent.markersRef c = MapComponent.on_map c
    ∧ NoDup (MapComponent.markersRef c)
    ∧ length (MapComponent.rendered c)
      = length (MapComponent.markersRef c).
Proof.
  eexists. split; [vm_compute; reflexivity|].
  apply markers_ref_tracks_the_map.
  apply (MapComponent.mounted_rerender
           (sample_props (reverse sample_markers)) true true sample_map).
  - apply (MapComponent.mounted_mount (sample_props sample_markers)).
    vm_compute; reflexivity.
  - vm_compute; reflexivity.
Defined.
